(** * Accuracy validation of the manufacturing part analyzer

    A shallow embedding of [validate_accuracy.py]: the identifier
    normalizer, the Excel value coercer, the record matcher, the field
    comparator and the aggregation of per-parameter counters, followed by
    the properties of the validation engine.

    Conventions of the embedding.
    - A Python [str] is a [string]; every [ascii] stands for the code point
      of the same number (so the texts covered are those over code points
      below 256), and white space, lower-casing and comparison are
      Python's on that range.
    - A Python or pandas scalar is a [pyval].  A finite float carries its
      exact value as a rational together with the text [repr] gives for it
      (the printing algorithm itself is not part of this development);
      [PNaN] is the float [nan] that pandas uses for an empty cell.
      Infinities are left out.
    - Exceptions are the [Raise] outcomes of [result].
    - A [dict] read from JSON is a [gmap string pyval]; the statistics
      dictionary is a [gmap string ParameterStat] (the order of its items
      is not modelled); the process map, whose order and repeated columns
      matter, is an association list. *)

From Stdlib Require Import ZArith QArith String Ascii DecimalString.
From stdpp Require Import gmap strings list fin_maps.
From Equations Require Import Equations.

(** ** Python values *)

Inductive pyval : Type :=
| PNone
| PBool (b : bool)
| PInt (z : Z)
| PFloat (q : Q) (repr : string)
| PNaN
| PStr (s : string).

Inductive exn : Type := KeyError | TypeError | ZeroDivisionError.

Inductive result (A : Type) : Type :=
| Ok (a : A)
| Raise (e : exn).
Arguments Ok {A} a.
Arguments Raise {A} e.

#[global] Instance result_ret : MRet result := fun A a => Ok a.
#[global] Instance result_fmap : FMap result := fun A B f m =>
  match m with
  | Ok a => Ok (f a)
  | Raise e => Raise e
  end.
#[global] Instance result_bind : MBind result := fun A B f m =>
  match m with
  | Ok a => f a
  | Raise e => Raise e
  end.

(** [str(v)] *)
Definition py_str (v : pyval) : string :=
  match v with
  | PNone => "None"
  | PBool true => "True"
  | PBool false => "False"
  | PInt z => NilZero.string_of_int (Z.to_int z)
  | PFloat _ repr => repr
  | PNaN => "nan"
  | PStr s => s
  end.

(** Truth value of [v], as [or] and [if] take it. *)
Definition truthy (v : pyval) : bool :=
  match v with
  | PNone => false
  | PBool b => b
  | PInt z => negb (z =? 0)%Z
  | PFloat q _ => negb (Qeq_bool q 0)
  | PNaN => true
  | PStr s => negb (String.eqb s "")
  end.

(** [a or b] *)
Definition py_or (a b : pyval) : pyval := if truthy a then a else b.

(** The number a [bool], [int] or finite [float] stands for. *)
Definition numeric (v : pyval) : option Q :=
  match v with
  | PBool b => Some (if b then 1 else 0)%Q
  | PInt z => Some (inject_Z z)
  | PFloat q _ => Some q
  | _ => None
  end.

(** [a == b] on scalars: never raises. *)
Definition py_eq (a b : pyval) : bool :=
  match numeric a, numeric b with
  | Some x, Some y => Qeq_bool x y
  | _, _ =>
    match a, b with
    | PNone, PNone => true
    | PStr s, PStr t => String.eqb s t
    | _, _ => false
    end
  end.

(** [a > b]: numbers by value, texts by code points, [nan] compares false
    with every number, anything else is a [TypeError]. *)
Definition py_gt (a b : pyval) : result bool :=
  match numeric a, numeric b with
  | Some x, Some y => Ok (negb (Qle_bool x y))
  | _, _ =>
    match a, b with
    | PStr s, PStr t => Ok (String.ltb t s)
    | PNaN, PNaN => Ok false
    | PNaN, (PBool _ | PInt _ | PFloat _ _) => Ok false
    | (PBool _ | PInt _ | PFloat _ _), PNaN => Ok false
    | _, _ => Raise TypeError
    end
  end.

(** [max(a, b)]: the first argument unless the second is greater. *)
Definition py_max (a b : pyval) : result pyval :=
  gt ← py_gt b a; mret (if gt : bool then b else a).

(** ** Text operations *)

(** [c.isspace()] *)
Definition is_space (c : ascii) : bool :=
  let n := N_of_ascii c in
  ((9 <=? n) && (n <=? 13) || (28 <=? n) && (n <=? 32)
   || (n =? 133) || (n =? 160))%N.

Fixpoint lstrip (s : string) : string :=
  match s with
  | EmptyString => EmptyString
  | String c s' => if is_space c then lstrip s' else s
  end.

Fixpoint rstrip (s : string) : string :=
  match s with
  | EmptyString => EmptyString
  | String c s' =>
    match rstrip s' with
    | EmptyString => if is_space c then EmptyString else String c EmptyString
    | r => String c r
    end
  end.

(** [s.strip()] *)
Definition strip (s : string) : string := rstrip (lstrip s).

Definition lower_char (c : ascii) : ascii :=
  let n := N_of_ascii c in
  if ((65 <=? n) && (n <=? 90)
      || (192 <=? n) && (n <=? 222) && negb (n =? 215))%N
  then ascii_of_N (n + 32) else c.

(** [s.lower()] *)
Fixpoint lower (s : string) : string :=
  match s with
  | EmptyString => EmptyString
  | String c s' => String (lower_char c) (lower s')
  end.

(** [s.startswith(sub)] *)
Fixpoint starts_with (sub s : string) : bool :=
  match sub with
  | EmptyString => true
  | String a sub' =>
    match s with
    | EmptyString => false
    | String b s' => Ascii.eqb a b && starts_with sub' s'
    end
  end.

(** [sub in s] *)
Fixpoint is_substring (sub s : string) : bool :=
  starts_with sub s ||
  match s with
  | EmptyString => false
  | String _ s' => is_substring sub s'
  end.

Fixpoint drop_str (n : nat) (s : string) : string :=
  match n, s with
  | O, _ => s
  | S n', String _ s' => drop_str n' s'
  | S _, EmptyString => EmptyString
  end.

(** The scan of [s.replace(old, new)] for a non-empty [old]: occurrences
    are taken from the left and do not overlap. *)
Equations? replace_scan (old new s : string) : string
  by wf (String.length s) lt :=
  replace_scan old new EmptyString := EmptyString;
  replace_scan old new (String c s') with starts_with old (String c s') => {
    | true := new +:+ replace_scan old new (drop_str (String.length old - 1) s');
    | false := String c (replace_scan old new s') }.
Proof.
  all: simpl; try lia.
  assert (Hdrop : forall n t, String.length (drop_str n t) <= String.length t).
  { induction n as [|n IH]; intros [|a t]; simpl; try lia.
    all: specialize (IH t); lia. }
  specialize (Hdrop (String.length old - 1) s'). lia.
Qed.

(** With an empty [old], [new] goes before every character and at the end. *)
Fixpoint replace_empty (new s : string) : string :=
  match s with
  | EmptyString => new
  | String c s' => new +:+ String c (replace_empty new s')
  end.

(** [s.replace(old, new)] *)
Definition py_replace (old new s : string) : string :=
  match old with
  | EmptyString => replace_empty new s
  | _ => replace_scan old new s
  end.

(** ** Identifier normalizer *)

Definition markers : list string :=
  ["_drw"; ".pdf"; " (1)"; " (2)"; ".PDF"; ".DRW"].

Definition normalize_part_id (part_id : pyval) : string :=
  let part_id := py_str part_id in
  let part_id := fold_left (fun acc ext => py_replace ext "" acc) markers part_id in
  strip part_id.

(** The loop of [normalize_part_id], over any list of markers. *)
Definition strip_markers (ms : list string) (s : string) : string :=
  fold_left (fun acc ext => py_replace ext "" acc) ms s.

(** ** Value coercer *)

Definition isna (value : pyval) : bool :=
  match value with
  | PNone | PNaN => true
  | _ => false
  end.

Definition convert_excel_value (value : pyval) : Z :=
  if isna value then 0%Z
  else match value with
       | PBool b => if b then 1%Z else 0%Z
       | PInt z => if (z >? 0)%Z then 1%Z else 0%Z
       | PFloat q _ => if negb (Qle_bool q 0) then 1%Z else 0%Z
       | _ => 0%Z
       end.

(** ** Predictions and the ground-truth table *)

(** [key in d], [d.get(key, default)] and [d[key]] on a dictionary. *)
Definition dict_has (d : gmap string pyval) (key : string) : bool :=
  match d !! key with
  | Some _ => true
  | None => false
  end.

Definition dict_get (d : gmap string pyval) (key : string) (dflt : pyval) : pyval :=
  match d !! key with
  | Some v => v
  | None => dflt
  end.

Definition dict_item (d : gmap string pyval) (key : string) : result pyval :=
  match d !! key with
  | Some v => Ok v
  | None => Raise KeyError
  end.

(** A row of a frame: the column labels and the cells under them. *)
Record Series : Type := { index : list string; values : list pyval }.

(** A frame: its column labels and its rows.  A row that is shorter than
    the header has [nan] in the cells it lacks, as pandas pads it. *)
Record DataFrame : Type := { columns : list string; rows : list (list pyval) }.

Fixpoint position (label : string) (labels : list string) : option nat :=
  match labels with
  | [] => None
  | l :: ls => if String.eqb l label then Some O else S <$> position label ls
  end.

Definition cell (i : nat) (row : list pyval) : pyval := nth i row PNaN.

(** [label in ser], [ser.get(label, default)] and [ser[label]]. *)
Definition series_has (ser : Series) (label : string) : bool :=
  match position label (index ser) with
  | Some _ => true
  | None => false
  end.

Definition series_get (ser : Series) (label : string) (dflt : pyval) : pyval :=
  match position label (index ser) with
  | Some i => cell i (values ser)
  | None => dflt
  end.

Definition series_item (ser : Series) (label : string) : result pyval :=
  match position label (index ser) with
  | Some i => Ok (cell i (values ser))
  | None => Raise KeyError
  end.

(** [df[label].astype(str).apply(normalize_part_id)]: a [KeyError] when
    the frame has no such column. *)
Definition normalized_column (df : DataFrame) (label : string)
  : result (list string) :=
  match position label (columns df) with
  | None => Raise KeyError
  | Some i =>
    Ok ((fun row => normalize_part_id (PStr (py_str (cell i row)))) <$> rows df)
  end.

(** [df[mask]]: the rows of [df] at which [mask] holds, in table order. *)
Definition select_rows (df : DataFrame) (mask : list bool) : list Series :=
  (fun item => {| index := columns df; values := item.2 |}) <$>
  filter (fun item => item.1 = true) (zip mask (rows df)).

(** [df[df[label].astype(str).apply(normalize_part_id) == part_id]] *)
Definition matching_rows (df : DataFrame) (label part_id : string)
  : result (list Series) :=
  ids ← normalized_column df label;
  Ok (select_rows df ((fun id => bool_decide (id = part_id)) <$> ids)).

(** ** Configuration *)

Definition create_process_map : list (string * string) :=
  [ ("laser_cut", "Laser Cut");
    ("saw_shear", "Saw/Shear");
    ("break_press", "Break Press");
    ("fab", "Fab Weld");
    ("weld", "Fab Weld");
    ("painting", "Painting");
    ("heat_treat", "Heat Treat");
    ("plating", "Plating");
    ("cnc_machining_turning", "CNC Machining /Turning");
    ("metal_rolling", "Metal Rolling");
    ("casting_forging", "Casting / Forging");
    ("tube_bending", "Tube Bending");
    ("metal_spinning", "Metal Spinning");
    ("turret_punch_stamping", "Turret Punch /Metal Stamping");
    ("press", "Press Inserts");
    ("inserts", "Press Inserts") ].

Definition initialize_parameters : list string :=
  [ "Complexity Level";
    "Type";
    "Material";
    "Laser Cut";
    "Saw/Shear";
    "Break Press";
    "Fab Weld";
    "Painting";
    "Heat Treat";
    "Plating";
    "CNC Machining /Turning";
    "Metal Rolling";
    "Casting / Forging";
    "Tube Bending";
    "Metal Spinning";
    "Turret Punch /Metal Stamping";
    "Press Inserts" ].

(** ** Statistics *)

Record ParameterStat : Type := { correct : Z; total : Z }.

(** [parameter_stats[param]['total'] += 1] *)
Definition incr_total (param : string) (parameter_stats : gmap string ParameterStat)
  : result (gmap string ParameterStat) :=
  match parameter_stats !! param with
  | Some st =>
    Ok (<[param := {| correct := correct st; total := (total st + 1)%Z |}]>
          parameter_stats)
  | None => Raise KeyError
  end.

(** [parameter_stats[param]['correct'] += 1] *)
Definition incr_correct (param : string) (parameter_stats : gmap string ParameterStat)
  : result (gmap string ParameterStat) :=
  match parameter_stats !! param with
  | Some st =>
    Ok (<[param := {| correct := (correct st + 1)%Z; total := total st |}]>
          parameter_stats)
  | None => Raise KeyError
  end.

(** A [for] loop whose body updates the statistics or raises. *)
Fixpoint for_each {A : Type}
    (body : A -> gmap string ParameterStat -> result (gmap string ParameterStat))
    (items : list A) (parameter_stats : gmap string ParameterStat)
  : result (gmap string ParameterStat) :=
  match items with
  | [] => Ok parameter_stats
  | x :: items' =>
    parameter_stats ← body x parameter_stats;
    for_each body items' parameter_stats
  end.

(** ** Field comparator *)

Definition check_complexity (pred : gmap string pyval) (actual : Series)
    (parameter_stats : gmap string ParameterStat)
  : result (gmap string ParameterStat) :=
  if dict_has pred "complexity_level" && series_has actual "Complexity Level" then
    parameter_stats ← incr_total "Complexity Level" parameter_stats;
    let pred_complexity := lower (py_str (dict_get pred "complexity_level" (PStr ""))) in
    let actual_complexity := lower (py_str (series_get actual "Complexity Level" (PStr ""))) in
    if String.eqb pred_complexity actual_complexity
    then incr_correct "Complexity Level" parameter_stats
    else Ok parameter_stats
  else Ok parameter_stats.

Definition check_type (pred : gmap string pyval) (actual : Series)
    (parameter_stats : gmap string ParameterStat)
  : result (gmap string ParameterStat) :=
  if dict_has pred "type" && series_has actual "Type" then
    parameter_stats ← incr_total "Type" parameter_stats;
    let pred_type := lower (py_str (dict_get pred "type" (PStr ""))) in
    let actual_type := lower (py_str (series_get actual "Type" (PStr ""))) in
    if String.eqb pred_type actual_type
    then incr_correct "Type" parameter_stats
    else Ok parameter_stats
  else Ok parameter_stats.

Definition check_material (pred : gmap string pyval) (actual : Series)
    (parameter_stats : gmap string ParameterStat)
  : result (gmap string ParameterStat) :=
  if dict_has pred "material" && series_has actual "Material" then
    parameter_stats ← incr_total "Material" parameter_stats;
    let pred_material := lower (py_str (dict_get pred "material" (PStr ""))) in
    let actual_material := lower (py_str (series_get actual "Material" (PStr ""))) in
    if is_substring pred_material actual_material
       || is_substring actual_material pred_material
    then incr_correct "Material" parameter_stats
    else Ok parameter_stats
  else Ok parameter_stats.

(** The body of the loop over the process map. *)
Definition check_process (pred : gmap string pyval) (actual : Series)
    (item : string * string) (parameter_stats : gmap string ParameterStat)
  : result (gmap string ParameterStat) :=
  let '(pred_key, excel_col) := item in
  if negb (dict_has pred pred_key) || negb (series_has actual excel_col) then
    Ok parameter_stats
  else if String.eqb excel_col "Fab Weld" then
    if String.eqb pred_key "fab" then
      parameter_stats ← incr_total excel_col parameter_stats;
      let fab_pred := dict_get pred "fab" (PInt 0) in
      let weld_pred := dict_get pred "weld" (PInt 0) in
      combined_pred ← py_max fab_pred weld_pred;
      actual_val ← convert_excel_value <$> series_item actual excel_col;
      if py_eq combined_pred (PInt actual_val)
      then incr_correct excel_col parameter_stats
      else Ok parameter_stats
    else Ok parameter_stats
  else if String.eqb excel_col "Press Inserts" then
    if String.eqb pred_key "press" then
      parameter_stats ← incr_total excel_col parameter_stats;
      let press_pred := dict_get pred "press" (PInt 0) in
      let inserts_pred := dict_get pred "inserts" (PInt 0) in
      combined_pred ← py_max press_pred inserts_pred;
      actual_val ← convert_excel_value <$> series_item actual excel_col;
      if py_eq combined_pred (PInt actual_val)
      then incr_correct excel_col parameter_stats
      else Ok parameter_stats
    else Ok parameter_stats
  else
    if negb (bool_decide (pred_key ∈ ["weld"; "inserts"])) then
      parameter_stats ← incr_total excel_col parameter_stats;
      predicted ← dict_item pred pred_key;
      actual_val ← convert_excel_value <$> series_item actual excel_col;
      if py_eq predicted (PInt actual_val)
      then incr_correct excel_col parameter_stats
      else Ok parameter_stats
    else Ok parameter_stats.

(** What the loop of [calculate_accuracy] does with a matched row. *)
Definition compare_record (process_map : list (string * string))
    (pred : gmap string pyval) (actual : Series)
    (parameter_stats : gmap string ParameterStat)
  : result (gmap string ParameterStat) :=
  parameter_stats ← check_complexity pred actual parameter_stats;
  parameter_stats ← check_type pred actual parameter_stats;
  parameter_stats ← check_material pred actual parameter_stats;
  for_each (check_process pred actual) process_map parameter_stats.

(** The identifier a prediction is matched by. *)
Definition prediction_part_id (pred : gmap string pyval) : string :=
  normalize_part_id
    (py_or (dict_get pred "part_identifier" PNone)
       (py_or (dict_get pred "part_name" PNone)
          (dict_get pred "source_file" (PStr "")))).

(** The body of the loop over the predictions. *)
Definition process_prediction (ground_truth_df : DataFrame)
    (process_map : list (string * string)) (pred : gmap string pyval)
    (parameter_stats : gmap string ParameterStat)
  : result (gmap string ParameterStat) :=
  let part_id := prediction_part_id pred in
  matches ← matching_rows ground_truth_df "Part ID" part_id;
  match matches with
  | [] => Ok parameter_stats
  | actual :: _ => compare_record process_map pred actual parameter_stats
  end.

(** The statistics before the first prediction. *)
Definition initial_stats : gmap string ParameterStat :=
  list_to_map ((fun param => (param, {| correct := 0; total := 0 |}))
                 <$> initialize_parameters).

Definition calculate_accuracy (predictions : list (gmap string pyval))
    (ground_truth_df : DataFrame) (process_map : list (string * string))
  : result (gmap string ParameterStat) :=
  let parameter_stats := initial_stats in
  for_each (process_prediction ground_truth_df process_map)
    predictions parameter_stats.

(** ** Reports *)

(** [a / b] on integers, in exact arithmetic. *)
Definition py_div (a b : Z) : result Q :=
  if (b =? 0)%Z then Raise ZeroDivisionError
  else Ok (inject_Z a / inject_Z b)%Q.

(** The lines [print_summary_table] prints: one per reported parameter
    (name, correct, total, accuracy) and the OVERALL line. *)
Record SummaryTable : Type :=
  { table_lines : list (string * Z * Z * Q);
    overall_line : Z * Z * Q }.

Definition summary_line (item : string * ParameterStat)
    (acc : list (string * Z * Z * Q) * Z * Z)
  : result (list (string * Z * Z * Q) * Z * Z) :=
  let '(param, stats) := item in
  let '(lines, overall_correct, overall_total) := acc in
  if (total stats =? 0)%Z then Ok acc
  else
    accuracy ← (if (total stats >? 0)%Z
                then (fun r => r * 100)%Q <$> py_div (correct stats) (total stats)
                else Ok 0%Q);
    Ok (lines ++ [(param, correct stats, total stats, accuracy)],
        (overall_correct + correct stats)%Z,
        (overall_total + total stats)%Z).

Fixpoint summary_lines (items : list (string * ParameterStat))
    (acc : list (string * Z * Z * Q) * Z * Z)
  : result (list (string * Z * Z * Q) * Z * Z) :=
  match items with
  | [] => Ok acc
  | item :: items' => acc ← summary_line item acc; summary_lines items' acc
  end.

Definition print_summary_table (parameter_stats : gmap string ParameterStat)
  : result SummaryTable :=
  '(lines, overall_correct, overall_total) ←
    summary_lines (map_to_list parameter_stats) ([], 0%Z, 0%Z);
  overall_accuracy ← (if (overall_total >? 0)%Z
                      then (fun r => r * 100)%Q <$> py_div overall_correct overall_total
                      else Ok 0%Q);
  Ok {| table_lines := lines;
        overall_line := (overall_correct, overall_total, overall_accuracy) |}.

(** The bars [create_visualization] plots (name, correct share, incorrect
    share, total), in exact arithmetic. *)
Definition chart_bar (item : string * ParameterStat)
    (bars : list (string * Q * Q * Z)) : result (list (string * Q * Q * Z)) :=
  let '(param, stats) := item in
  if (total stats =? 0)%Z then Ok bars
  else
    let total := total stats in
    let correct := correct stats in
    let incorrect := (total - correct)%Z in
    correct_pct ← (fun r => r * 100)%Q <$> py_div correct total;
    incorrect_pct ← (fun r => r * 100)%Q <$> py_div incorrect total;
    Ok (bars ++ [(param, correct_pct, incorrect_pct, total)]).

Fixpoint chart_bars (items : list (string * ParameterStat))
    (bars : list (string * Q * Q * Z)) : result (list (string * Q * Q * Z)) :=
  match items with
  | [] => Ok bars
  | item :: items' => bars ← chart_bar item bars; chart_bars items' bars
  end.

Definition sum_of (f : ParameterStat -> Z) (items : list (string * ParameterStat)) : Z :=
  fold_right (fun item acc => (f item.2 + acc)%Z) 0%Z items.

(** The value [create_visualization] returns: [None] after "No data to
    visualize", otherwise overall accuracy, correct and total. *)
Definition create_visualization (parameter_stats : gmap string ParameterStat)
  : result (option (Q * Z * Z)) :=
  bars ← chart_bars (map_to_list parameter_stats) [];
  match bars with
  | [] => Ok None
  | _ =>
    let overall_correct := sum_of correct (map_to_list parameter_stats) in
    let overall_total := sum_of total (map_to_list parameter_stats) in
    overall_accuracy ← (if (overall_total >? 0)%Z
                        then (fun r => r * 100)%Q <$> py_div overall_correct overall_total
                        else Ok 0%Q);
    Ok (Some (overall_accuracy, overall_correct, overall_total))
  end.

(** ** The normalizer as the specification words it *)

(** [removed m s t]: [t] is [s] without the occurrences of the marker [m],
    taken from the left, wherever they are in [s]. *)
Inductive removed (m : string) : string -> string -> Prop :=
| removed_none s :
    is_substring m s = false -> removed m s s
| removed_cut a b b' :
    (forall i, i < String.length a ->
               starts_with m (drop_str i (a +:+ m)) = false) ->
    removed m b b' ->
    removed m (a +:+ m +:+ b) (a +:+ b').

(** The markers of [ms] are removed one after the other, in their order. *)
Fixpoint removed_in_order (ms : list string) (s t : string) : Prop :=
  match ms with
  | [] => s = t
  | m :: ms' => exists u, removed m s u /\ removed_in_order ms' u t
  end.

(** [trimmed s t]: [t] is [s] without the white space around it. *)
Definition all_space (s : string) : Prop := lstrip s = EmptyString.

Definition trimmed (s t : string) : Prop :=
  exists l r, s = l +:+ t +:+ r /\ all_space l /\ all_space r /\
              lstrip t = t /\ rstrip t = t.

(** ** Notions the properties are stated with *)

(** The parameters are the keys of the statistics. *)
Definition tracked (parameter_stats : gmap string ParameterStat) : Prop :=
  dom parameter_stats = list_to_set initialize_parameters.

(** [correct <= total], and no counter is negative. *)
Definition consistent (parameter_stats : gmap string ParameterStat) : Prop :=
  forall param st, parameter_stats !! param = Some st ->
                   (0 <= correct st <= total st)%Z.

(** One scored comparison: the total goes up by one, and so does the count
    of correct answers when the comparison succeeded. *)
Definition bump (param : string) (ok : bool)
    (parameter_stats : gmap string ParameterStat) : gmap string ParameterStat :=
  alter (fun st => {| correct := (correct st + if ok then 1 else 0)%Z;
                      total := (total st + 1)%Z |}) param parameter_stats.

Definition bump_all (scores : list (string * bool))
    (parameter_stats : gmap string ParameterStat) : gmap string ParameterStat :=
  foldl (fun acc score => bump score.1 score.2 acc) parameter_stats scores.

(** [after] is [before] with the total raised by at least as much as the
    count of correct answers, and neither lowered. *)
Definition grows (before after : ParameterStat) : Prop :=
  (correct before <= correct after /\ total before <= total after /\
   correct after - correct before <= total after - total before)%Z.

(** The keys of a prediction the engine reads. *)
Definition matching_keys : list string :=
  ["part_identifier"; "part_name"; "source_file"].

Definition categorical_keys : list string :=
  ["complexity_level"; "type"; "material"].

(** The categorical fields: the key of the prediction and the column of
    the ground truth it is compared with. *)
Definition categorical_fields : list (string * string) :=
  [ ("complexity_level", "Complexity Level");
    ("type", "Type");
    ("material", "Material") ].

(** A statistics update is [scoring cols] when, on tracked statistics, it
    either raises a [TypeError] or performs a list of scored comparisons,
    on parameters of [cols], that does not depend on the statistics it
    starts from. *)
Definition scoring (cols : list string)
    (f : gmap string ParameterStat -> result (gmap string ParameterStat)) : Prop :=
  exists r : result (list (string * bool)),
    (forall e, r = Raise e -> e = TypeError) /\
    (forall l, r = Ok l -> Forall (fun score => score.1 ∈ cols) l) /\
    forall s, tracked s -> f s = (fun l => bump_all l s) <$> r.

(** [100 * correct / total], in exact arithmetic. *)
Definition percent (c t : Z) : Q := (inject_Z c / inject_Z t * 100)%Q.

(** The parameters that have been compared at least once. *)
Definition reported (items : list (string * ParameterStat))
  : list (string * ParameterStat) :=
  filter (fun item => total item.2 <> 0%Z) items.

(** The line of the summary table and the bar of the chart for a reported
    parameter. *)
Definition summary_line_of (item : string * ParameterStat) : string * Z * Z * Q :=
  (item.1, correct item.2, total item.2,
   if (total item.2 >? 0)%Z then percent (correct item.2) (total item.2) else 0%Q).

Definition chart_bar_of (item : string * ParameterStat) : string * Q * Q * Z :=
  (item.1, percent (correct item.2) (total item.2),
   percent (total item.2 - correct item.2) (total item.2), total item.2).

(** Whether a computation returned. *)
Definition is_ok {A : Type} (r : result A) : bool :=
  match r with
  | Ok _ => true
  | Raise _ => false
  end.

(** The counters of [param] in the outcome of a run. *)
Definition counters_of (param : string) (r : result (gmap string ParameterStat))
  : result (option (Z * Z)) :=
  (fun s => (fun st => (correct st, total st)) <$> s !! param) <$> r.

(** ** Sample data *)

Definition sample_table : DataFrame :=
  {| columns := ["Part ID"; "Complexity Level"; "Type"; "Material";
                 "Laser Cut"; "Saw/Shear"; "Fab Weld"; "Press Inserts"];
     rows := [ [PStr "bracket_001.pdf"; PStr "Simple"; PStr "Bracket";
                PStr "Mild Steel"; PInt 0; PInt 1; PInt 1; PNaN];
               [PStr "shaft_002"; PNaN; PStr "Shaft"; PStr "Aluminum";
                PFloat 1 "1.0"; PInt 0; PInt 1; PInt 1] ] |}.

Definition sample_bracket : gmap string pyval :=
  list_to_map [ ("part_name", PStr "bracket_001.pdf");
                ("complexity_level", PStr "simple");
                ("material", PStr "Steel");
                ("laser_cut", PInt 0); ("saw_shear", PInt 1);
                ("fab", PInt 1); ("weld", PInt 0) ].

Definition sample_shaft : gmap string pyval :=
  list_to_map [ ("source_file", PStr "shaft_002.pdf");
                ("complexity_level", PStr "Moderate");
                ("type", PStr "shaft");
                ("laser_cut", PInt 1); ("weld", PInt 1) ].

(** The row of [sample_table] that [sample_shaft] is matched with. *)
Definition sample_shaft_row : Series :=
  {| index := columns sample_table;
     values := [PStr "shaft_002"; PNaN; PStr "Shaft"; PStr "Aluminum";
                PFloat 1 "1.0"; PInt 0; PInt 1; PInt 1] |}.

Definition sample_unknown : gmap string pyval :=
  list_to_map [ ("source_file", PStr "unknown.pdf"); ("laser_cut", PInt 1) ].

(** ** Notions for the further properties *)



(** How often [param] is among [names]. *)
Definition occurrences (param : string) (names : list string) : nat :=
  length (filter (fun name => name = param) names).

(** A statistics update is [tallying cols] when, on tracked statistics, it
    raises or performs scored comparisons that do not depend on the
    statistics it starts from and that score no parameter more often than
    it is listed in [cols]. *)
Definition tallying (cols : list string)
    (f : gmap string ParameterStat -> result (gmap string ParameterStat)) : Prop :=
  exists r : result (list (string * bool)),
    (forall l param, r = Ok l -> occurrences param l.*1 ≤ occurrences param cols) /\
    forall s, tracked s -> f s = (fun l => bump_all l s) <$> r.

(** The column an item of the process map can score: none for the second
    key of a combined column. *)
Definition scored_columns (item : string * string) : list string :=
  if bool_decide (item.1 ∈ ["weld"; "inserts"]) then [] else [item.2].

(** The parameters one record can score. *)
Definition record_columns (process_map : list (string * string)) : list string :=
  ["Complexity Level"; "Type"; "Material"] ++ concat (scored_columns <$> process_map).

(** The sum of two statistics, parameter by parameter. *)
Definition stat_add (a b : ParameterStat) : ParameterStat :=
  {| correct := (correct a + correct b)%Z; total := (total a + total b)%Z |}.

Definition stats_add (s d : gmap string ParameterStat) : gmap string ParameterStat :=
  union_with (fun a b => Some (stat_add a b)) s d.

(** A [bool], an [int] or a [float]. *)
Definition is_number (v : pyval) : bool :=
  match v with
  | PBool _ | PInt _ | PFloat _ _ | PNaN => true
  | PNone | PStr _ => false
  end.

(** The fields of the combined columns hold numbers where they are there. *)
Definition combined_fields_numeric (pred : gmap string pyval) : Prop :=
  forall key v, key ∈ ["fab"; "weld"; "press"; "inserts"] ->
                pred !! key = Some v -> is_number v = true.

(** ** The command line entry point *)

(** How [main] ends: [sys.exit(code)], an exception, or the overall
    figures of the chart and the printed summary table. *)
Inductive outcome : Type :=
| Exited (code : Z)
| Failed (e : exn)
| Completed (overall : Q * Z * Z) (table : SummaryTable).

(** [main], given whether the two files exist and what
    [load_predictions] and [load_ground_truth] read from them.  Unpacking
    the [None] that [create_visualization] returns when it has nothing to
    plot is a [TypeError]. *)
Definition main (predictions_exist ground_truth_exists : bool)
    (predictions : list (gmap string pyval)) (ground_truth : DataFrame) : outcome :=
  if negb predictions_exist then Exited 1
  else if negb ground_truth_exists then Exited 1
  else
    let process_map := create_process_map in
    match calculate_accuracy predictions ground_truth process_map with
    | Raise e => Failed e
    | Ok parameter_stats =>
      match create_visualization parameter_stats with
      | Raise e => Failed e
      | Ok None => Failed TypeError
      | Ok (Some overall) =>
        match print_summary_table parameter_stats with
        | Raise e => Failed e
        | Ok table => Completed overall table
        end
      end
    end.

(** ** The ground truth template *)

(** The frame that [create_template] writes to the sheet [Ground Truth]:
    the columns of the template and its three example rows. *)
Definition create_template : DataFrame :=
  {| columns :=
       [ "Part ID"; "Complexity Level"; "Type"; "Material";
         "Laser Cut"; "Saw/Shear"; "Break Press"; "Fab Weld"; "Painting";
         "Heat Treat"; "Plating"; "CNC Machining /Turning"; "Metal Rolling";
         "Casting / Forging"; "Tube Bending"; "Metal Spinning";
         "Turret Punch /Metal Stamping"; "Press Inserts" ];
     rows :=
       [ [ PStr "example_bracket.pdf"; PStr "Complex"; PStr "Bracket"; PStr "Steel";
           PInt 0; PInt 1; PInt 1; PInt 1; PInt 1; PInt 0; PInt 0; PInt 1; PInt 0;
           PInt 0; PInt 0; PInt 0; PInt 0; PInt 0 ];
         [ PStr "example_shaft.pdf"; PStr "Moderate"; PStr "Shaft"; PStr "Aluminum";
           PInt 0; PInt 1; PInt 0; PInt 0; PInt 0; PInt 0; PInt 1; PInt 1; PInt 0;
           PInt 0; PInt 0; PInt 0; PInt 0; PInt 0 ];
         [ PStr "example_weldment.pdf"; PStr "Very Complex"; PStr "Weldment";
           PStr "Steel";
           PInt 0; PInt 1; PInt 1; PInt 1; PInt 1; PInt 0; PInt 0; PInt 0; PInt 0;
           PInt 0; PInt 0; PInt 0; PInt 0; PInt 0 ] ] |}.

(** The fields a record is scored by: the key of the prediction and the
    column it is compared with.  The second key of a combined column scores
    nothing of its own. *)
Definition scoring_fields : list (string * string) :=
  categorical_fields
  ++ filter (fun item => item.1 ∉ ["weld"; "inserts"]) create_process_map.

(** The column the comparison of [item] scores for this prediction and this
    row, if any. *)
Definition counted_columns (pred : gmap string pyval) (actual : Series)
    (item : string * string) : list string :=
  if dict_has pred item.1 && series_has actual item.2 then scored_columns item else [].

(** A statistics update [tallies cols] when, on tracked statistics, it
    raises or performs one scored comparison for each entry of [cols], in
    that order. *)
Definition tallies (cols : list string)
    (f : gmap string ParameterStat -> result (gmap string ParameterStat)) : Prop :=
  exists r : result (list (string * bool)),
    (forall l, r = Ok l -> l.*1 = cols) /\
    forall s, tracked s -> f s = (fun l => bump_all l s) <$> r.

(** A prediction with every field the analyzer is asked for, for the second
    example of the template. *)
Definition sample_complete : gmap string pyval :=
  list_to_map
    [ ("source_file", PStr "example_shaft.pdf");
      ("complexity_level", PStr "Moderate"); ("type", PStr "Shaft");
      ("part_name", PStr ""); ("material", PStr "6061 Aluminum");
      ("part_notes", PStr "");
      ("laser_cut", PInt 0); ("saw_shear", PInt 1); ("break_press", PInt 0);
      ("fab", PInt 0); ("weld", PInt 0); ("painting", PInt 0);
      ("heat_treat", PInt 0); ("plating", PInt 1);
      ("cnc_machining_turning", PInt 1); ("metal_rolling", PInt 0);
      ("casting_forging", PInt 0); ("tube_bending", PInt 0);
      ("metal_spinning", PInt 0); ("turret_punch_stamping", PInt 0);
      ("press", PInt 0); ("inserts", PInt 0) ].

(** ** The reply of the model *)

(** The scan of [s.split(sep)] for a non-empty [sep]: occurrences are taken
    from the left and do not overlap; [piece] is the text read since the
    last one. *)
Equations? split_scan (sep s piece : string) : list string
  by wf (String.length s) lt :=
  split_scan sep EmptyString piece := [piece];
  split_scan sep (String c s') piece with starts_with sep (String c s') => {
    | true := piece :: split_scan sep (drop_str (String.length sep - 1) s') EmptyString;
    | false := split_scan sep s' (piece +:+ String c EmptyString) }.
Proof.
  all: simpl; try lia.
  assert (Hdrop : forall n t, String.length (drop_str n t) <= String.length t).
  { induction n as [|n IH]; intros [|a t]; simpl; try lia.
    all: specialize (IH t); lia. }
  specialize (Hdrop (String.length sep - 1) s'). lia.
Qed.

(** [s.split(sep)], for the separators the analyzer splits at. *)
Definition py_split (sep s : string) : list string := split_scan sep s EmptyString.

(** What [analyze_part] hands to [json.loads]: the reply of the model, or
    what stands in its first fenced block, without the white space around
    it.  [None] is an [IndexError]. *)
Definition response_json_text (result_text : string) : option string :=
  result_text ←
    (if is_substring "```json" result_text then
       part ← py_split "```json" result_text !! 1;
       py_split "```" part !! 0
     else if is_substring "```" result_text then
       part ← py_split "```" result_text !! 1;
       py_split "```" part !! 0
     else Some result_text);
  Some (strip result_text).

(** The text before the first occurrence of [sep], all of it when there is
    none. *)
Fixpoint before (sep s : string) : string :=
  match s with
  | EmptyString => EmptyString
  | String c s' => if starts_with sep s then EmptyString else String c (before sep s')
  end.

(** With [sep] put after [s], an occurrence of [sep] begins inside [s]. *)
Fixpoint begins_in (sep s : string) : bool :=
  match s with
  | EmptyString => false
  | String _ s' => starts_with sep (s +:+ sep) || begins_in sep s'
  end.

(** A closed decidable proposition, settled by evaluating its decision. *)
Ltac by_evaluation := apply (bool_decide_unpack _); vm_compute; exact I.

(** * Properties *)

(** ** Texts *)

Lemma str_app_cons c s t : String c s +:+ t = String c (s +:+ t).
Proof. reflexivity. Qed.

Lemma str_app_nil_l s : "" +:+ s = s.
Proof. reflexivity. Qed.

Lemma str_app_nil_r s : s +:+ "" = s.
Proof. induction s as [|c s IH]; [done|]. by rewrite str_app_cons, IH. Qed.

Lemma str_app_assoc s t u : (s +:+ t) +:+ u = s +:+ (t +:+ u).
Proof. induction s as [|c s IH]; [done|]. by rewrite !str_app_cons, IH. Qed.

Lemma str_length_app s t :
  String.length (s +:+ t) = String.length s + String.length t.
Proof. induction s as [|c s IH]; [done|]. rewrite str_app_cons. simpl. by rewrite IH. Qed.

Lemma drop_str_length n s : String.length (drop_str n s) ≤ String.length s.
Proof.
  revert s. induction n as [|n IH]; intros [|c s]; simpl; try lia.
  specialize (IH s). lia.
Qed.

Lemma drop_str_app s t : drop_str (String.length s) (s +:+ t) = t.
Proof. induction s as [|c s IH]; [done|]. by rewrite str_app_cons. Qed.

Lemma starts_with_split m s :
  starts_with m s = true -> s = m +:+ drop_str (String.length m) s.
Proof.
  revert s. induction m as [|a m IH]; intros s H; [done|].
  destruct s as [|c s]; [done|]. simpl in H.
  apply andb_true_iff in H as [->%Ascii.eqb_eq H].
  rewrite str_app_cons. simpl. f_equal. by apply IH.
Qed.

Lemma starts_with_app m t : starts_with m (m +:+ t) = true.
Proof.
  induction m as [|a m IH]; [done|]. rewrite str_app_cons. simpl.
  by rewrite Ascii.eqb_refl.
Qed.

Lemma starts_with_app_l m s t :
  starts_with m s = true -> starts_with m (s +:+ t) = true.
Proof.
  revert s. induction m as [|a m IH]; intros s H; [done|].
  destruct s as [|c s]; [done|]. rewrite str_app_cons. simpl in *.
  apply andb_true_iff in H as [-> H]. by apply IH.
Qed.

Lemma is_substring_cons m c s :
  is_substring m (String c s) = starts_with m (String c s) || is_substring m s.
Proof. reflexivity. Qed.

Lemma is_substring_nil m : is_substring m "" = starts_with m "".
Proof. simpl. by rewrite orb_false_r. Qed.

(** ** [str.replace] with a non-empty marker *)

Lemma replace_scan_nil old new : replace_scan old new "" = "".
Proof. by simp replace_scan. Qed.

Lemma replace_scan_hit old new c s :
  starts_with old (String c s) = true ->
  replace_scan old new (String c s) =
  new +:+ replace_scan old new (drop_str (String.length old - 1) s).
Proof. intros H. simp replace_scan. rewrite H. by simp replace_scan. Qed.

Lemma replace_scan_miss old new c s :
  starts_with old (String c s) = false ->
  replace_scan old new (String c s) = String c (replace_scan old new s).
Proof. intros H. simp replace_scan. rewrite H. by simp replace_scan. Qed.

Lemma replace_scan_absent m new s :
  is_substring m s = false -> replace_scan m new s = s.
Proof.
  induction s as [|c s IH]; intros H; [apply replace_scan_nil|].
  rewrite is_substring_cons in H. apply orb_false_iff in H as [Hp Hs].
  rewrite replace_scan_miss by done. by rewrite IH.
Qed.

Lemma is_substring_app a m b : is_substring m (a +:+ m +:+ b) = true.
Proof.
  induction a as [|c a IH].
  - rewrite str_app_nil_l. destruct (m +:+ b) as [|c t] eqn:E.
    + rewrite is_substring_nil, <- E. apply starts_with_app.
    + rewrite is_substring_cons, <- E, starts_with_app. done.
  - rewrite str_app_cons, is_substring_cons, IH. apply orb_true_r.
Qed.

Lemma replace_scan_removed m s :
  m <> "" -> removed m s (replace_scan m "" s).
Proof.
  intros Hm. remember (String.length s) as n eqn:Hn.
  revert s Hn. induction n as [n IH] using lt_wf_ind. intros s ->.
  destruct s as [|c s].
  - rewrite replace_scan_nil. apply removed_none.
    rewrite is_substring_nil. by destruct m.
  - destruct (starts_with m (String c s)) eqn:Hp.
    + rewrite replace_scan_hit by done. rewrite str_app_nil_l.
      pose proof (starts_with_split _ _ Hp) as Hsplit.
      assert (Hd : drop_str (String.length m) (String c s)
                   = drop_str (String.length m - 1) s).
      { destruct m as [|a m]; [done|]. simpl. by rewrite Nat.sub_0_r. }
      rewrite Hd in Hsplit. rewrite Hsplit at 1.
      apply (removed_cut m "" _ _); [simpl; lia|].
      eapply IH; [|done]. simpl.
      pose proof (drop_str_length (String.length m - 1) s). lia.
    + rewrite replace_scan_miss by done.
      assert (Hs : removed m s (replace_scan m "" s)).
      { eapply IH; [|done]. simpl. lia. }
      clear IH. revert Hs. generalize (replace_scan m "" s). intros t Hs.
      destruct Hs as [s Habs | a b b' Hleft Hb].
      * apply removed_none. by rewrite is_substring_cons, Hp, Habs.
      * rewrite <- !str_app_cons. apply removed_cut; [|done].
        intros [|i] Hi.
        -- simpl. destruct (starts_with m (String c a +:+ m)) eqn:Hq; [|done].
           apply (starts_with_app_l _ _ b) in Hq.
           rewrite str_app_assoc, str_app_cons, Hp in Hq. done.
        -- rewrite str_app_cons. simpl. apply Hleft. simpl in Hi. lia.
Qed.

Lemma removed_length m s t :
  removed m s t -> String.length t ≤ String.length s.
Proof.
  induction 1 as [|a b b' _ _ IH]; [done|].
  rewrite !str_length_app. lia.
Qed.

Lemma removed_shorter m s t :
  m <> "" -> is_substring m s = true -> removed m s t ->
  String.length t < String.length s.
Proof.
  intros Hm Hin Hr. destruct Hr as [s Habs | a b b' _ Hb]; [congruence|].
  apply removed_length in Hb. rewrite !str_length_app.
  destruct m; [done|]. simpl. lia.
Qed.

Lemma py_replace_scan m new s : m <> "" -> py_replace m new s = replace_scan m new s.
Proof. by destruct m. Qed.

(** ** [str.strip] *)

Lemma lstrip_length s : String.length (lstrip s) ≤ String.length s.
Proof. induction s as [|c s IH]; simpl; [done|]. destruct (is_space c); simpl; lia. Qed.

Lemma rstrip_length s : String.length (rstrip s) ≤ String.length s.
Proof.
  induction s as [|c s IH]; simpl; [done|].
  destruct (rstrip s); [destruct (is_space c)|]; simpl in *; lia.
Qed.

Lemma strip_length s : String.length (strip s) ≤ String.length s.
Proof.
  unfold strip. pose proof (rstrip_length (lstrip s)).
  pose proof (lstrip_length s). lia.
Qed.

Lemma lstrip_idem s : lstrip (lstrip s) = lstrip s.
Proof.
  induction s as [|c s IH]; [done|]. simpl.
  destruct (is_space c) eqn:E; [done|]. simpl. by rewrite E.
Qed.

Lemma rstrip_idem s : rstrip (rstrip s) = rstrip s.
Proof.
  induction s as [|c s IH]; [done|]. simpl.
  destruct (rstrip s) as [|d r] eqn:E.
  - destruct (is_space c) eqn:Ec; [done|]. simpl. by rewrite Ec.
  - change (rstrip (String c (String d r))) with
      (match rstrip (String d r) with
       | "" => if is_space c then "" else String c ""
       | r0 => String c r0
       end).
    by rewrite IH.
Qed.

Lemma lstrip_fixed_head c s : lstrip (String c s) = String c s -> is_space c = false.
Proof.
  simpl. destruct (is_space c); [|done]. intros H.
  pose proof (lstrip_length s) as Hl. rewrite H in Hl. simpl in Hl. lia.
Qed.

Lemma lstrip_rstrip s : lstrip s = s -> lstrip (rstrip s) = rstrip s.
Proof.
  destruct s as [|c s]; [done|]. intros Hc%lstrip_fixed_head. simpl.
  destruct (rstrip s); rewrite ?Hc; simpl; by rewrite Hc.
Qed.

Lemma strip_idem s : strip (strip s) = strip s.
Proof.
  unfold strip. rewrite (lstrip_rstrip (lstrip s)) by apply lstrip_idem.
  apply rstrip_idem.
Qed.

Lemma lstrip_split s : exists l, s = l +:+ lstrip s /\ all_space l.
Proof.
  induction s as [|c s (l & Hl & Hsp)]; [by exists ""|]. simpl.
  destruct (is_space c) eqn:E.
  - exists (String c l). split; [by rewrite str_app_cons, <- Hl|].
    unfold all_space. simpl. by rewrite E.
  - by exists "".
Qed.

Lemma rstrip_split s : exists r, s = rstrip s +:+ r /\ all_space r.
Proof.
  induction s as [|c s (r & Hr & Hsp)]; [by exists ""|]. simpl.
  destruct (rstrip s) as [|d t] eqn:E.
  - rewrite str_app_nil_l in Hr. subst r. destruct (is_space c) eqn:Ec.
    + exists (String c s). split; [done|]. unfold all_space. simpl. by rewrite Ec.
    + by exists s.
  - exists r. split; [|done]. by rewrite str_app_cons, <- Hr.
Qed.

Lemma strip_trimmed s : trimmed s (strip s).
Proof.
  destruct (lstrip_split s) as (l & Hl & Hlsp).
  destruct (rstrip_split (lstrip s)) as (r & Hr & Hrsp).
  exists l, r. unfold strip. repeat split; try done.
  - by rewrite <- Hr.
  - apply lstrip_rstrip, lstrip_idem.
  - apply rstrip_idem.
Qed.

Lemma starts_with_app_inv m s t :
  starts_with m (s +:+ t) = true -> String.length m ≤ String.length s ->
  starts_with m s = true.
Proof.
  revert s. induction m as [|a m IH]; intros s H Hlen; [done|].
  destruct s as [|c s]; [simpl in Hlen; lia|].
  rewrite str_app_cons in H. simpl in *.
  apply andb_true_iff in H as [-> H]. simpl. apply IH; [done|lia].
Qed.

Lemma replace_scan_cut m new a b :
  m <> "" ->
  (forall i, i < String.length a -> starts_with m (drop_str i (a +:+ m)) = false) ->
  replace_scan m new (a +:+ m +:+ b) = a +:+ new +:+ replace_scan m new b.
Proof.
  intros Hm. induction a as [|c a IH]; intros Hleft.
  - rewrite !str_app_nil_l. destruct m as [|d m]; [done|].
    rewrite str_app_cons, replace_scan_hit.
    + simpl. by rewrite Nat.sub_0_r, drop_str_app.
    + rewrite <- str_app_cons. apply starts_with_app.
  - rewrite !str_app_cons, replace_scan_miss.
    + f_equal. apply IH. intros i Hi.
      specialize (Hleft (S i)). rewrite str_app_cons in Hleft. simpl in Hleft.
      apply Hleft. lia.
    + specialize (Hleft 0). simpl in Hleft.
      destruct (starts_with m (String c (a +:+ m +:+ b))) eqn:Hq; [|done].
      rewrite <- Hleft by lia. symmetry.
      apply (starts_with_app_inv _ _ b).
      * by rewrite str_app_assoc, str_app_cons.
      * rewrite str_length_app. lia.
Qed.

Lemma removed_replace_scan m s t :
  m <> "" -> removed m s t -> t = replace_scan m "" s.
Proof.
  intros Hm. induction 1 as [s Habs | a b b' Hleft _ ->].
  - by rewrite replace_scan_absent.
  - by rewrite replace_scan_cut, str_app_nil_l.
Qed.

Lemma all_space_cons c s : all_space (String c s) -> is_space c = true /\ all_space s.
Proof. unfold all_space. simpl. by destruct (is_space c). Qed.

Lemma lstrip_all_space_app l s : all_space l -> lstrip (l +:+ s) = lstrip s.
Proof.
  induction l as [|c l IH]; [done|]. intros [Hc Hl]%all_space_cons.
  rewrite str_app_cons. simpl. rewrite Hc. by apply IH.
Qed.

Lemma rstrip_all_space r : all_space r -> rstrip r = "".
Proof.
  induction r as [|c r IH]; [done|]. intros [Hc Hr]%all_space_cons.
  simpl. by rewrite IH, Hc.
Qed.

Lemma rstrip_app_all_space s r : all_space r -> rstrip (s +:+ r) = rstrip s.
Proof.
  intros Hr. induction s as [|c s IH].
  - rewrite str_app_nil_l. by apply rstrip_all_space.
  - rewrite str_app_cons. simpl. by rewrite IH.
Qed.

Lemma lstrip_fixed_app t r : lstrip t = t -> t <> "" -> lstrip (t +:+ r) = t +:+ r.
Proof.
  destruct t as [|c t]; [done|]. intros Hc%lstrip_fixed_head _.
  rewrite str_app_cons. simpl. by rewrite Hc.
Qed.

Lemma trimmed_strip s t : trimmed s t -> t = strip s.
Proof.
  intros (l & r & -> & Hl & Hr & Hlt & Hrt). unfold strip.
  rewrite lstrip_all_space_app by done.
  destruct (decide (t = "")) as [->|Hne].
  - rewrite str_app_nil_l. rewrite Hr. done.
  - rewrite lstrip_fixed_app by done. by rewrite rstrip_app_all_space.
Qed.

(** ** The marker loop of the normalizer *)

Lemma normalize_part_id_unfold v :
  normalize_part_id v = strip (strip_markers markers (py_str v)).
Proof. reflexivity. Qed.

Lemma markers_nonempty : Forall (fun m => m <> "") markers.
Proof. repeat constructor; discriminate. Qed.

Lemma strip_markers_removed ms s :
  Forall (fun m => m <> "") ms -> removed_in_order ms s (strip_markers ms s).
Proof.
  intros Hms. revert s. induction Hms as [|m ms Hm _ IH]; intros s; [done|].
  simpl. exists (py_replace m "" s). split; [|apply IH].
  rewrite py_replace_scan by done. by apply replace_scan_removed.
Qed.

Lemma removed_in_order_strip_markers ms s t :
  Forall (fun m => m <> "") ms -> removed_in_order ms s t -> t = strip_markers ms s.
Proof.
  intros Hms. revert s. induction Hms as [|m ms Hm _ IH]; intros s; [done|].
  simpl. intros (u & Hu & Ht). apply removed_replace_scan in Hu; [|done].
  subst u. rewrite py_replace_scan by done. by apply IH.
Qed.

Lemma strip_markers_absent ms s :
  Forall (fun m => m <> "") ms ->
  (forall m, m ∈ ms -> is_substring m s = false) ->
  strip_markers ms s = s.
Proof.
  intros Hms. induction Hms as [|m ms Hm _ IH]; intros Habs; [done|].
  simpl. rewrite py_replace_scan, replace_scan_absent by (done || apply Habs; left).
  apply IH. intros m' Hin. apply Habs. by right.
Qed.

Lemma strip_markers_length ms s :
  Forall (fun m => m <> "") ms ->
  String.length (strip_markers ms s) ≤ String.length s.
Proof.
  intros Hms. revert s. induction Hms as [|m ms Hm _ IH]; intros s; [done|].
  simpl. etrans; [apply IH|]. rewrite py_replace_scan by done.
  by apply (removed_length m), replace_scan_removed.
Qed.

Lemma strip_markers_shorter ms s m :
  Forall (fun m => m <> "") ms -> m ∈ ms -> is_substring m s = true ->
  String.length (strip_markers ms s) < String.length s.
Proof.
  intros Hms. revert s. induction Hms as [|m1 ms Hm1 Hms IH]; intros s Hin Hsub.
  { by apply elem_of_nil in Hin. }
  simpl. destruct (is_substring m1 s) eqn:E.
  - eapply Nat.le_lt_trans; [by apply strip_markers_length|].
    rewrite py_replace_scan by done.
    by apply (removed_shorter m1), replace_scan_removed.
  - rewrite py_replace_scan, replace_scan_absent by done.
    apply IH; [|done]. apply elem_of_cons in Hin as [->|]; [congruence|done].
Qed.

(** ** Identifier normalizer *)

(** C3, as the code has it: normalizing a second time changes nothing
    exactly when the first result contains none of the six markers.  (Every
    marker is removed in one pass from the left, so a removal can bring the
    two halves of a new occurrence together.) *)
Theorem normalize_part_id_idempotent_iff (v : pyval) :
  normalize_part_id (PStr (normalize_part_id v)) = normalize_part_id v
  <-> forall m, m ∈ markers -> is_substring m (normalize_part_id v) = false.
Proof.
  split.
  - intros Heq m Hin. destruct (is_substring m (normalize_part_id v)) eqn:E; [|done].
    exfalso. apply (f_equal String.length) in Heq.
    rewrite (normalize_part_id_unfold (PStr _)) in Heq. simpl py_str in Heq.
    pose proof (strip_length (strip_markers markers (normalize_part_id v))).
    pose proof (strip_markers_shorter markers _ m markers_nonempty Hin E). lia.
  - intros Habs. rewrite (normalize_part_id_unfold (PStr _)). simpl py_str.
    rewrite strip_markers_absent by (done || apply markers_nonempty).
    rewrite normalize_part_id_unfold. apply strip_idem.
Qed.

Lemma normalize_part_id_idempotent_iff_witness :
  normalize_part_id (PStr (normalize_part_id (PStr "shaft (1).PDF")))
  = normalize_part_id (PStr "shaft (1).PDF").
Proof.
  apply (proj2 (normalize_part_id_idempotent_iff (PStr "shaft (1).PDF"))).
  intros m Hin. vm_compute in Hin.
  repeat (apply elem_of_cons in Hin as [->|Hin]; [by vm_compute|]).
  by apply elem_of_nil in Hin.
Defined.

(** C3 fails as stated: removing [_drw] from [_d_drwrw] leaves [_drw],
    which a second normalization removes. *)
Lemma normalize_part_id_not_idempotent :
  normalize_part_id (PStr "_d_drwrw") = "_drw"
  /\ normalize_part_id (PStr (normalize_part_id (PStr "_d_drwrw")))
     <> normalize_part_id (PStr "_d_drwrw").
Proof. split; [by vm_compute|]. vm_compute. discriminate. Qed.

(** C9: the normalized identifier of a text [s] is [u] exactly when [u] is
    what is left after the six markers are removed, in the order of the
    list and wherever they occur, and the surrounding white space is then
    trimmed; [_drw] is removed from inside [part_drw_001.pdf]. *)
Theorem normalize_part_id_removes_markers :
  (forall s u,
     normalize_part_id (PStr s) = u
     <-> exists t,
           removed_in_order ["_drw"; ".pdf"; " (1)"; " (2)"; ".PDF"; ".DRW"] s t
           /\ trimmed t u)
  /\ normalize_part_id (PStr "part_drw_001.pdf") = "part_001".
Proof.
  split; [|by vm_compute].
  intros s u. rewrite normalize_part_id_unfold. simpl py_str. split.
  - intros <-. exists (strip_markers markers s). split.
    + apply strip_markers_removed, markers_nonempty.
    + apply strip_trimmed.
  - intros (t & Ht & Hu).
    apply (removed_in_order_strip_markers markers) in Ht; [|apply markers_nonempty].
    subst t. symmetry. by apply trimmed_strip.
Qed.

(** ** Value coercer *)

(** C4: the coercer is a total function into {0, 1}: 0 for a missing
    value, 1 exactly for [True] and for the numbers above zero, 0 for
    every text. *)
Theorem convert_excel_value_binary (v : pyval) :
  (convert_excel_value v = 0 \/ convert_excel_value v = 1)%Z
  /\ convert_excel_value PNone = 0%Z
  /\ convert_excel_value PNaN = 0%Z
  /\ (forall b, convert_excel_value (PBool b) = if b then 1 else 0)%Z
  /\ (forall z, convert_excel_value (PInt z) = 1 <-> 0 < z)%Z
  /\ (forall q r, convert_excel_value (PFloat q r) = 1%Z <-> (0 < q)%Q)
  /\ (forall s, convert_excel_value (PStr s) = 0%Z)
  /\ convert_excel_value (PInt (-5)) = 0%Z
  /\ convert_excel_value (PStr "yes") = 0%Z
  /\ convert_excel_value (PBool true) = 1%Z.
Proof.
  repeat split; try done.
  - destruct v as [|[]|z|q r| |s]; unfold convert_excel_value; simpl; auto;
      [destruct (z >? 0)%Z | destruct (Qle_bool q 0)]; auto.
  - unfold convert_excel_value; simpl. destruct (Z.gtb_spec z 0); [done|discriminate].
  - unfold convert_excel_value; simpl. destruct (Z.gtb_spec z 0); [done|lia].
  - unfold convert_excel_value; simpl. destruct (Qle_bool q 0) eqn:E; simpl; [discriminate|].
    intros _. apply Qnot_le_lt. intros Hle%Qle_bool_iff. congruence.
  - unfold convert_excel_value; simpl. intros Hlt. destruct (Qle_bool q 0) eqn:E; simpl; [|done].
    apply Qle_bool_iff in E. by apply Qlt_not_le in Hlt.
Qed.

(** ** Statistics updates *)

Lemma is_ok_Ok {A} (r : result A) : is_ok r = true -> exists a, r = Ok a.
Proof. destruct r as [a|e]; [eauto|discriminate]. Qed.

Lemma result_bind_ok {A B} (f : A -> result B) (a : A) : (Ok a ≫= f) = f a.
Proof. reflexivity. Qed.

Lemma tracked_lookup s param :
  tracked s -> param ∈ initialize_parameters -> is_Some (s !! param).
Proof.
  unfold tracked. intros Hdom Hin. apply elem_of_dom. rewrite Hdom.
  by apply elem_of_list_to_set.
Qed.

Lemma tracked_initial_stats : tracked initial_stats.
Proof. unfold tracked, initial_stats. by rewrite dom_list_to_map_L, <- list_fmap_compose. Qed.

Lemma tracked_bump param ok s : tracked s -> tracked (bump param ok s).
Proof. unfold tracked, bump. by rewrite dom_alter_L. Qed.

Lemma tracked_bump_all scores s : tracked s -> tracked (bump_all scores s).
Proof.
  revert s. induction scores as [|sc scores IH]; intros s Hs; [done|].
  by apply IH, tracked_bump.
Qed.

Lemma bump_all_app l1 l2 s : bump_all (l1 ++ l2) s = bump_all l2 (bump_all l1 s).
Proof. unfold bump_all. by rewrite foldl_app. Qed.

Lemma lookup_bump param ok s j :
  bump param ok s !! j =
  if decide (param = j)
  then (fun st => {| correct := (correct st + if ok then 1 else 0)%Z;
                     total := (total st + 1)%Z |}) <$> s !! j
  else s !! j.
Proof. unfold bump. rewrite lookup_alter. by case_decide; subst. Qed.

Lemma incr_total_some param s st :
  s !! param = Some st ->
  incr_total param s
  = Ok (<[param := {| correct := correct st; total := (total st + 1)%Z |}]> s).
Proof. unfold incr_total. by intros ->. Qed.

Lemma incr_correct_some param s st :
  s !! param = Some st ->
  incr_correct param s
  = Ok (<[param := {| correct := (correct st + 1)%Z; total := total st |}]> s).
Proof. unfold incr_correct. by intros ->. Qed.

(** A scored comparison, as the source writes it, is a [bump]. *)
Lemma score_bump param (ok : bool) s :
  is_Some (s !! param) ->
  (s1 ← incr_total param s; if ok then incr_correct param s1 else Ok s1)
  = Ok (bump param ok s).
Proof.
  intros [st Hst]. rewrite (incr_total_some _ _ _ Hst), result_bind_ok.
  destruct ok.
  - rewrite (incr_correct_some _ _ {| correct := correct st; total := (total st + 1)%Z |})
      by apply lookup_insert_eq.
    f_equal. apply map_eq. intros j. rewrite lookup_bump.
    rewrite insert_insert_eq, lookup_insert. case_decide; subst; [|done].
    by rewrite Hst.
  - f_equal. apply map_eq. intros j. rewrite lookup_bump, lookup_insert.
    case_decide; subst; [|done]. rewrite Hst. simpl. do 2 f_equal. lia.
Qed.

Lemma bump_commute p1 o1 p2 o2 s :
  bump p1 o1 (bump p2 o2 s) = bump p2 o2 (bump p1 o1 s).
Proof.
  apply map_eq. intros j. rewrite !lookup_bump.
  repeat case_decide; subst; try done.
  destruct (s !! j) as [st|]; [|done]. simpl. do 2 f_equal; lia.
Qed.

Lemma bump_all_cons sc l s : bump_all (sc :: l) s = bump_all l (bump sc.1 sc.2 s).
Proof. reflexivity. Qed.

Lemma bump_all_bump p o l s : bump_all l (bump p o s) = bump p o (bump_all l s).
Proof.
  revert s. induction l as [|sc l IH]; intros s; [done|].
  by rewrite !bump_all_cons, bump_commute, IH.
Qed.

Lemma bump_all_commute l1 l2 s :
  bump_all l1 (bump_all l2 s) = bump_all l2 (bump_all l1 s).
Proof.
  revert s. induction l1 as [|sc l1 IH]; intros s; [done|].
  by rewrite !bump_all_cons, <- (IH (bump sc.1 sc.2 s)), (bump_all_bump _ _ l2).
Qed.

(** ** Scoring updates *)

Lemma scoring_ext cols f g : (forall s, f s = g s) -> scoring cols g -> scoring cols f.
Proof.
  intros Hfg (r & He & Hl & Hr). exists r. repeat split; try done.
  intros s Hs. rewrite Hfg. by apply Hr.
Qed.

Lemma scoring_weaken cols cols' f : cols ⊆ cols' -> scoring cols f -> scoring cols' f.
Proof.
  intros Hsub (r & He & Hl & Hr). exists r. repeat split; try done.
  intros l Hrl. eapply Forall_impl; [by apply Hl|]. intros sc Hsc. by apply Hsub.
Qed.

Lemma scoring_ok cols : scoring cols Ok.
Proof. exists (Ok []). repeat split; try done. intros l [= <-]. constructor. Qed.

Lemma scoring_bind cols f g :
  scoring cols f -> scoring cols g -> scoring cols (fun s => f s ≫= g).
Proof.
  intros (r1 & He1 & Hl1 & Hr1) (r2 & He2 & Hl2 & Hr2).
  exists (l1 ← r1; l2 ← r2; Ok (l1 ++ l2)). repeat split.
  - intros e. destruct r1 as [l1|e1]; simpl; [|intros [= <-]; by apply He1].
    destruct r2 as [l2|e2]; simpl; [done|]. intros [= <-]. by apply He2.
  - intros l. destruct r1 as [l1|e1]; simpl; [|done].
    destruct r2 as [l2|e2]; simpl; [|done]. intros [= <-].
    apply Forall_app. split; [by apply Hl1|by apply Hl2].
  - intros s Hs. rewrite (Hr1 s Hs). destruct r1 as [l1|e1]; simpl; [|done].
    rewrite Hr2 by by apply tracked_bump_all.
    destruct r2 as [l2|e2]; simpl; [|done]. by rewrite bump_all_app.
Qed.

Lemma scoring_score param (ok : result bool) :
  param ∈ initialize_parameters ->
  (forall e, ok = Raise e -> e = TypeError) ->
  scoring [param] (fun s => s1 ← incr_total param s; b ← ok;
                            if b : bool then incr_correct param s1 else Ok s1).
Proof.
  intros Hin He. exists (b ← ok; Ok [(param, b)]). repeat split.
  - intros e. destruct ok as [b|e1]; simpl; [done|]. intros [= <-]. by apply He.
  - intros l. destruct ok as [b|e1]; simpl; [|done]. intros [= <-].
    apply Forall_cons. split; [apply list_elem_of_here|apply Forall_nil_2].
  - intros s Hs. pose proof (tracked_lookup s param Hs Hin) as Hsome.
    destruct ok as [b|e1]; simpl.
    + by rewrite <- (score_bump param b s Hsome).
    + destruct Hsome as [st Hst]. by rewrite (incr_total_some _ _ _ Hst).
Qed.

Lemma scoring_for_each {A} cols (body : A -> _) (items : list A) :
  Forall (fun x => scoring cols (body x)) items -> scoring cols (for_each body items).
Proof.
  induction 1 as [|x items Hx _ IH]; [apply scoring_ok|].
  simpl. by apply (scoring_bind cols (body x) (for_each body items)).
Qed.

Lemma scoring_bumps cols f s s' :
  scoring cols f -> tracked s -> f s = Ok s' ->
  exists l, Forall (fun score => score.1 ∈ cols) l /\ s' = bump_all l s.
Proof.
  intros (r & _ & Hl & Hr) Hs. rewrite (Hr s Hs).
  destruct r as [l|e]; simpl; [|done]. intros [= <-]. exists l. split; [|done].
  by apply Hl.
Qed.

Lemma scoring_tracked cols f s s' :
  scoring cols f -> tracked s -> f s = Ok s' -> tracked s'.
Proof.
  intros Hf Hs Hfs. destruct (scoring_bumps _ _ _ _ Hf Hs Hfs) as (l & _ & ->).
  by apply tracked_bump_all.
Qed.

Lemma scoring_commute cols f g s :
  scoring cols f -> scoring cols g -> tracked s -> (f s ≫= g) = (g s ≫= f).
Proof.
  intros (r1 & He1 & _ & Hr1) (r2 & He2 & _ & Hr2) Hs.
  rewrite (Hr1 s Hs), (Hr2 s Hs).
  destruct r1 as [l1|e1], r2 as [l2|e2]; simpl.
  - rewrite Hr1, Hr2 by by apply tracked_bump_all. simpl.
    by rewrite bump_all_commute.
  - rewrite Hr2 by by apply tracked_bump_all. done.
  - rewrite Hr1 by by apply tracked_bump_all. done.
  - by rewrite (He1 e1), (He2 e2).
Qed.

(** ** The comparator is a scoring update *)

Lemma py_max_error a b e : py_max a b = Raise e -> e = TypeError.
Proof.
  unfold py_max, py_gt, mbind, result_bind, mret, result_ret.
  destruct b, a; simpl; congruence.
Qed.

Lemma series_has_item actual label :
  series_has actual label = true ->
  exists i, position label (index actual) = Some i
            /\ series_item actual label = Ok (cell i (values actual))
            /\ forall dflt, series_get actual label dflt = cell i (values actual).
Proof.
  unfold series_has, series_item, series_get.
  destruct (position label (index actual)) as [i|]; [|done]. eauto.
Qed.

Lemma dict_has_item pred key :
  dict_has pred key = true ->
  exists v, pred !! key = Some v /\ dict_item pred key = Ok v
            /\ forall dflt, dict_get pred key dflt = v.
Proof.
  unfold dict_has, dict_item, dict_get.
  destruct (pred !! key) as [v|]; [|done]. eauto.
Qed.

Lemma scoring_check_complexity pred actual :
  scoring ["Complexity Level"] (check_complexity pred actual).
Proof.
  unfold check_complexity.
  destruct (dict_has pred "complexity_level" && series_has actual "Complexity Level");
    [|apply scoring_ok].
  apply (scoring_score "Complexity Level" (Ok _)); [by_evaluation|done].
Qed.

Lemma scoring_check_type pred actual : scoring ["Type"] (check_type pred actual).
Proof.
  unfold check_type.
  destruct (dict_has pred "type" && series_has actual "Type"); [|apply scoring_ok].
  apply (scoring_score "Type" (Ok _)); [by_evaluation|done].
Qed.

Lemma scoring_check_material pred actual :
  scoring ["Material"] (check_material pred actual).
Proof.
  unfold check_material.
  destruct (dict_has pred "material" && series_has actual "Material");
    [|apply scoring_ok].
  apply (scoring_score "Material" (Ok _)); [by_evaluation|done].
Qed.

Lemma scoring_combined param a b cval :
  param ∈ initialize_parameters ->
  scoring [param] (fun s =>
    s1 ← incr_total param s;
    combined_pred ← py_max a b;
    actual_val ← convert_excel_value <$> Ok cval;
    if py_eq combined_pred (PInt actual_val)
    then incr_correct param s1 else Ok s1).
Proof.
  intros Hin.
  apply (scoring_ext _ _ (fun s =>
    s1 ← incr_total param s;
    ok ← (combined_pred ← py_max a b;
          Ok (py_eq combined_pred (PInt (convert_excel_value cval))));
    if ok : bool then incr_correct param s1 else Ok s1)).
  - intros s. destruct (incr_total param s); [|done]. simpl.
    by destruct (py_max a b).
  - apply scoring_score; [done|]. intros e.
    destruct (py_max a b) eqn:E; simpl; [done|]. intros [= <-].
    by apply py_max_error in E.
Qed.

Lemma scoring_check_process pred actual pred_key excel_col :
  excel_col ∈ initialize_parameters ->
  scoring [excel_col] (check_process pred actual (pred_key, excel_col)).
Proof.
  intros Hin. unfold check_process.
  destruct (dict_has pred pred_key) eqn:Hk; [|apply scoring_ok].
  destruct (series_has actual excel_col) eqn:Hc; [|apply scoring_ok].
  simpl negb. simpl orb. cbv iota.
  destruct (series_has_item _ _ Hc) as (i & _ & -> & _).
  destruct (dict_has_item _ _ Hk) as (v & _ & -> & _).
  destruct (String.eqb excel_col "Fab Weld").
  { destruct (String.eqb pred_key "fab"); [|apply scoring_ok].
    by apply scoring_combined. }
  destruct (String.eqb excel_col "Press Inserts").
  { destruct (String.eqb pred_key "press"); [|apply scoring_ok].
    by apply scoring_combined. }
  destruct (negb (bool_decide (pred_key ∈ ["weld"; "inserts"]))); [|apply scoring_ok].
  by apply (scoring_score excel_col (Ok _)).
Qed.

Lemma process_map_columns :
  Forall (fun item => item.2 ∈ initialize_parameters) create_process_map.
Proof. repeat (apply Forall_cons; split; [by_evaluation|]). apply Forall_nil_2. Qed.

Lemma scoring_process_loop process_map pred actual :
  Forall (fun item => item.2 ∈ initialize_parameters) process_map ->
  scoring process_map.*2 (for_each (check_process pred actual) process_map).
Proof.
  intros Hpm. apply scoring_for_each.
  apply Forall_forall. intros [pred_key excel_col] Hitem.
  apply (scoring_weaken [excel_col]).
  - intros col ->%list_elem_of_singleton.
    apply list_elem_of_fmap. by exists (pred_key, excel_col).
  - apply scoring_check_process.
    by apply (proj1 (Forall_forall _ _) Hpm (pred_key, excel_col)).
Qed.

Lemma scoring_compare_record process_map pred actual :
  Forall (fun item => item.2 ∈ initialize_parameters) process_map ->
  scoring initialize_parameters (compare_record process_map pred actual).
Proof.
  intros Hpm. unfold compare_record.
  apply (scoring_bind _ (check_complexity pred actual)).
  { apply (scoring_weaken ["Complexity Level"]); [|apply scoring_check_complexity].
    intros col ->%list_elem_of_singleton. by_evaluation. }
  apply (scoring_bind _ (check_type pred actual)).
  { apply (scoring_weaken ["Type"]); [|apply scoring_check_type].
    intros col ->%list_elem_of_singleton. by_evaluation. }
  apply (scoring_bind _ (check_material pred actual)).
  { apply (scoring_weaken ["Material"]); [|apply scoring_check_material].
    intros col ->%list_elem_of_singleton. by_evaluation. }
  apply (scoring_weaken process_map.*2); [|by apply scoring_process_loop].
  intros col ([k c] & -> & Hitem)%list_elem_of_fmap.
  by apply (proj1 (Forall_forall _ _) Hpm (k, c)).
Qed.

(** ** The loop over the predictions *)

Lemma result_bind_assoc {A B C} (m : result A) (f : A -> result B) (g : B -> result C) :
  (m ≫= f) ≫= g = m ≫= (fun a => f a ≫= g).
Proof. by destruct m. Qed.

Lemma for_each_cons {A} (body : A -> _) x l s :
  for_each body (x :: l) s = body x s ≫= for_each body l.
Proof. reflexivity. Qed.

Lemma for_each_app {A} (body : A -> _) l1 l2 s :
  for_each body (l1 ++ l2) s = for_each body l1 s ≫= for_each body l2.
Proof.
  revert s. induction l1 as [|x l1 IH]; intros s; [done|].
  simpl. rewrite result_bind_assoc. destruct (body x s) as [s1|e]; [|done].
  simpl. apply IH.
Qed.

Lemma select_rows_none df mask :
  Forall (fun b => b = false) mask -> select_rows df mask = [].
Proof.
  unfold select_rows. generalize (rows df). induction mask as [|b mask IH];
    intros rs Hmask; [done|].
  destruct rs as [|r rs]; [done|]. inversion Hmask as [|? ? -> Hrest]; subst.
  simpl. rewrite filter_cons_False by done. by apply IH.
Qed.

(** Without a [Part ID] column every prediction raises a [KeyError]. *)
Lemma process_prediction_no_column df process_map pred s :
  position "Part ID" (columns df) = None ->
  process_prediction df process_map pred s = Raise KeyError.
Proof.
  intros Hpos. unfold process_prediction, matching_rows, normalized_column.
  by rewrite Hpos.
Qed.

Lemma scoring_process_prediction df process_map pred i :
  position "Part ID" (columns df) = Some i ->
  Forall (fun item => item.2 ∈ initialize_parameters) process_map ->
  scoring initialize_parameters (process_prediction df process_map pred).
Proof.
  intros Hpos Hpm. unfold process_prediction, matching_rows, normalized_column.
  rewrite Hpos. simpl.
  destruct (select_rows df _) as [|actual matches]; [apply scoring_ok|].
  by apply scoring_compare_record.
Qed.

(** On a given table, the loop body either is a scoring update for every
    prediction or raises a [KeyError] for every prediction. *)
Lemma process_prediction_cases df process_map :
  Forall (fun item => item.2 ∈ initialize_parameters) process_map ->
  (forall pred, scoring initialize_parameters (process_prediction df process_map pred))
  \/ (forall pred s, process_prediction df process_map pred s = Raise KeyError).
Proof.
  intros Hpm. destruct (position "Part ID" (columns df)) as [i|] eqn:Hpos.
  - left. intros pred. by apply (scoring_process_prediction _ _ _ i).
  - right. intros pred s. by apply process_prediction_no_column.
Qed.

Lemma for_each_raise {A} (body : A -> _) e l s :
  (forall x s, body x s = Raise e) ->
  for_each body l s = match l with [] => Ok s | _ => Raise e end.
Proof. intros Hbody. destruct l as [|x l]; [done|]. simpl. by rewrite Hbody. Qed.

Lemma for_each_permutation {A} (body : A -> _) l1 l2 s :
  (forall x, scoring initialize_parameters (body x)) ->
  l1 ≡ₚ l2 -> tracked s -> for_each body l1 s = for_each body l2 s.
Proof.
  intros Hbody Hperm. revert s.
  induction Hperm as [|x l1 l2 _ IH|x y l|l1 l2 l3 _ IH1 _ IH2]; intros s Hs.
  - done.
  - simpl. destruct (body x s) as [s1|e] eqn:E; [|done]. simpl.
    apply IH. by apply (scoring_tracked _ _ _ _ (Hbody x) Hs E).
  - simpl. rewrite <- !result_bind_assoc.
    by rewrite (scoring_commute initialize_parameters (body y) (body x) s).
  - by rewrite IH1, IH2.
Qed.

Lemma for_each_bumps {A} (body : A -> _) l s s' :
  (forall x, scoring initialize_parameters (body x)) ->
  tracked s -> for_each body l s = Ok s' ->
  exists scores, s' = bump_all scores s.
Proof.
  intros Hbody Hs Hrun.
  assert (Hsc : scoring initialize_parameters (for_each body l)).
  { apply scoring_for_each, Forall_forall. auto. }
  destruct (scoring_bumps _ _ _ _ Hsc Hs Hrun) as (scores & _ & ->). eauto.
Qed.

(** What a run that returns has done is a list of scored comparisons. *)
Lemma calculate_accuracy_bumps predictions df stats :
  calculate_accuracy predictions df create_process_map = Ok stats ->
  exists scores, stats = bump_all scores initial_stats.
Proof.
  unfold calculate_accuracy.
  destruct (process_prediction_cases df create_process_map process_map_columns)
    as [Hsc|Herr].
  - apply for_each_bumps; [done|apply tracked_initial_stats].
  - rewrite (for_each_raise _ KeyError) by done.
    destruct predictions; [|done]. intros [= <-]. by exists [].
Qed.

Lemma run_bumps df l s s' :
  tracked s ->
  for_each (process_prediction df create_process_map) l s = Ok s' ->
  exists scores, s' = bump_all scores s.
Proof.
  intros Hs.
  destruct (process_prediction_cases df create_process_map process_map_columns)
    as [Hsc|Herr].
  - by apply for_each_bumps.
  - rewrite (for_each_raise _ KeyError) by done.
    destruct l; [|done]. intros [= <-]. by exists [].
Qed.

(** ** Counters under scored comparisons *)

Lemma consistent_initial_stats : consistent initial_stats.
Proof.
  intros param st Hst. unfold initial_stats in Hst.
  apply elem_of_list_to_map_2, list_elem_of_fmap in Hst as (p & [= _ ->] & _).
  simpl. lia.
Qed.

Lemma initial_stats_lookup param :
  initial_stats !! param =
  if bool_decide (param ∈ initialize_parameters)
  then Some {| correct := 0; total := 0 |} else None.
Proof.
  case_bool_decide as Hin.
  - destruct (tracked_lookup _ _ tracked_initial_stats Hin) as [st Hst].
    rewrite Hst. f_equal. unfold initial_stats in Hst.
    by apply elem_of_list_to_map_2, list_elem_of_fmap in Hst as (p & [= _ ->] & _).
  - apply not_elem_of_dom. rewrite tracked_initial_stats.
    by rewrite elem_of_list_to_set.
Qed.

Lemma consistent_bump param ok s : consistent s -> consistent (bump param ok s).
Proof.
  intros Hs j st. rewrite lookup_bump. case_decide; [|apply Hs].
  destruct (s !! j) as [st0|] eqn:E; [|done]. simpl. intros [= <-]. simpl.
  specialize (Hs j st0 E). destruct ok; lia.
Qed.

Lemma consistent_bump_all scores s : consistent s -> consistent (bump_all scores s).
Proof.
  revert s. induction scores as [|sc scores IH]; intros s Hs; [done|].
  rewrite bump_all_cons. by apply IH, consistent_bump.
Qed.

Lemma grows_refl st : grows st st.
Proof. unfold grows. lia. Qed.

Lemma grows_trans st1 st2 st3 : grows st1 st2 -> grows st2 st3 -> grows st1 st3.
Proof. unfold grows. lia. Qed.

Lemma bump_grows param ok s j st' :
  bump param ok s !! j = Some st' -> exists st, s !! j = Some st /\ grows st st'.
Proof.
  rewrite lookup_bump. case_decide.
  - destruct (s !! j) as [st|]; [|done]. simpl. intros [= <-]. exists st.
    split; [done|]. unfold grows. simpl. destruct ok; lia.
  - intros ->. exists st'. split; [done|apply grows_refl].
Qed.

Lemma bump_all_grows scores s j st' :
  bump_all scores s !! j = Some st' -> exists st, s !! j = Some st /\ grows st st'.
Proof.
  revert s. induction scores as [|sc scores IH]; intros s.
  - intros Hst. exists st'. split; [exact Hst|apply grows_refl].
  - rewrite bump_all_cons. intros (st1 & Hst1 & Hg1)%IH.
    apply bump_grows in Hst1 as (st & Hst & Hg). exists st. split; [done|].
    by apply (grows_trans _ st1).
Qed.

Lemma bump_all_frame scores s j :
  Forall (fun score => score.1 <> j) scores -> bump_all scores s !! j = s !! j.
Proof.
  revert s. induction scores as [|sc scores IH]; intros s Hne; [done|].
  apply Forall_cons in Hne as [Hsc Hne]. rewrite bump_all_cons, IH by done.
  rewrite lookup_bump. by case_decide.
Qed.

(** A scoring update leaves the parameters outside its columns alone. *)
Lemma scoring_frame cols f s s' j :
  scoring cols f -> tracked s -> f s = Ok s' -> j ∉ cols -> s' !! j = s !! j.
Proof.
  intros Hf Hs Hfs Hj. destruct (scoring_bumps _ _ _ _ Hf Hs Hfs) as (l & Hl & ->).
  apply bump_all_frame. eapply Forall_impl; [exact Hl|].
  intros sc Hsc Heq. simpl in *. by rewrite Heq in Hsc.
Qed.

(** ** Aggregation *)

(** C8: the statistics, or the exception raised, do not depend on the
    order in which the predictions are processed. *)
Theorem calculate_accuracy_permutation
    (predictions predictions' : list (gmap string pyval)) (df : DataFrame) :
  predictions ≡ₚ predictions' ->
  calculate_accuracy predictions df create_process_map
  = calculate_accuracy predictions' df create_process_map.
Proof.
  intros Hperm. unfold calculate_accuracy.
  destruct (process_prediction_cases df create_process_map process_map_columns)
    as [Hsc|Herr].
  - apply for_each_permutation; [done|done|apply tracked_initial_stats].
  - rewrite !(for_each_raise _ KeyError) by done.
    destruct predictions as [|p ps], predictions' as [|p' ps']; try done.
    + by apply Permutation_nil_cons in Hperm.
    + symmetry in Hperm. by apply Permutation_nil_cons in Hperm.
Qed.

(** The two increments of a scored comparison, one after the other: the
    statistics between them are consistent, and so are those after them. *)
Lemma scored_comparison_states param s :
  consistent s -> is_Some (s !! param) ->
  exists s1 s2,
    incr_total param s = Ok s1 /\ consistent s1
    /\ incr_correct param s1 = Ok s2 /\ consistent s2.
Proof.
  intros Hs [st Hst].
  exists (<[param := {| correct := correct st; total := (total st + 1)%Z |}]> s).
  eexists. split; [by apply incr_total_some|]. split.
  { intros j stj. rewrite lookup_insert. case_decide; [|apply Hs].
    intros [= <-]. simpl. specialize (Hs _ _ Hst). lia. }
  split; [by apply incr_correct_some, lookup_insert_eq|].
  intros j stj. rewrite insert_insert_eq, lookup_insert. case_decide.
  - intros [= <-]. simpl. specialize (Hs _ _ Hst). lia.
  - apply Hs.
Qed.

(** C7: counters start at zero, and after every prefix of the predictions
    every parameter has [0 <= correct <= total]; from an earlier prefix to
    a later one no counter goes down and [correct] rises by no more than
    [total]; inside a comparison, the statistics between [total += 1] and
    [correct += 1] satisfy the same bounds. *)
Theorem correct_le_total
    (predictions : list (gmap string pyval)) (df : DataFrame)
    (n : nat) (stats : gmap string ParameterStat) :
  calculate_accuracy (take n predictions) df create_process_map = Ok stats ->
  consistent stats
  /\ calculate_accuracy [] df create_process_map = Ok initial_stats
  /\ (forall param st, initial_stats !! param = Some st ->
                       st = {| correct := 0; total := 0 |})
  /\ (forall m, m <= n ->
       exists earlier,
         calculate_accuracy (take m predictions) df create_process_map = Ok earlier
         /\ consistent earlier
         /\ forall param st', stats !! param = Some st' ->
              exists st, earlier !! param = Some st /\ grows st st')
  /\ (forall param s,
        consistent s -> is_Some (s !! param) ->
        exists s1 s2,
          incr_total param s = Ok s1 /\ consistent s1
          /\ incr_correct param s1 = Ok s2 /\ consistent s2).
Proof.
  intros Hrun. split; [|split; [done|split; [|split; [|apply scored_comparison_states]]]].
  - apply calculate_accuracy_bumps in Hrun as (scores & ->).
    apply consistent_bump_all, consistent_initial_stats.
  - intros param st. rewrite initial_stats_lookup. by case_bool_decide; intros [= <-].
  - intros m Hm. revert Hrun. unfold calculate_accuracy.
    replace (take n predictions)
      with (take m predictions ++ drop m (take n predictions)).
    2:{ assert (take m predictions = take m (take n predictions)) as ->.
        { rewrite take_take, Nat.min_l by lia. done. }
        apply take_drop. }
    rewrite for_each_app.
    destruct (for_each _ (take m predictions) initial_stats) as [earlier|e] eqn:E;
      [|done].
    simpl. intros Hrest. exists earlier.
    pose proof (run_bumps _ _ _ _ tracked_initial_stats E) as (sc1 & ->).
    apply run_bumps in Hrest as (sc2 & ->); [|apply tracked_bump_all, tracked_initial_stats].
    split; [done|]. split; [apply consistent_bump_all, consistent_initial_stats|].
    intros param st'. apply bump_all_grows.
Qed.

Lemma calculate_accuracy_permutation_witness :
  [sample_bracket; sample_shaft; sample_unknown]
    ≡ₚ [sample_unknown; sample_bracket; sample_shaft]
  /\ calculate_accuracy [sample_bracket; sample_shaft; sample_unknown]
       sample_table create_process_map
     = calculate_accuracy [sample_unknown; sample_bracket; sample_shaft]
         sample_table create_process_map.
Proof.
  assert (Hperm : [sample_bracket; sample_shaft; sample_unknown]
                    ≡ₚ [sample_unknown; sample_bracket; sample_shaft]).
  { symmetry.
    apply (Permutation_cons_append [sample_bracket; sample_shaft] sample_unknown). }
  split; [exact Hperm|].
  exact (calculate_accuracy_permutation _ _ sample_table Hperm).
Defined.

Lemma correct_le_total_witness :
  exists stats,
    calculate_accuracy (take 2 [sample_bracket; sample_shaft; sample_unknown])
      sample_table create_process_map = Ok stats
    /\ consistent stats.
Proof.
  destruct (is_ok_Ok (calculate_accuracy
                        (take 2 [sample_bracket; sample_shaft; sample_unknown])
                        sample_table create_process_map))
    as [stats E]; [vm_compute; reflexivity|].
  exists stats. split; [exact E|].
  exact (proj1 (correct_le_total _ _ 2 stats E)).
Defined.

(** ** Record matcher *)

Lemma process_prediction_unmatched df process_map pred ids :
  normalized_column df "Part ID" = Ok ids ->
  prediction_part_id pred ∉ ids ->
  forall stats, process_prediction df process_map pred stats = Ok stats.
Proof.
  intros Hids Hno stats. unfold process_prediction, matching_rows.
  rewrite Hids, result_bind_ok.
  rewrite select_rows_none; [done|].
  apply Forall_fmap, Forall_forall. intros id Hid. simpl.
  apply bool_decide_eq_false. by intros ->.
Qed.

(** C5: a prediction whose normalized identifier is the normalized Part ID
    of no row changes no counter, and the run goes on with the other
    predictions as if it were not there. *)
Theorem unmatched_prediction_skipped
    (df : DataFrame) (process_map : list (string * string))
    (pred : gmap string pyval) (before after : list (gmap string pyval))
    (ids : list string) :
  normalized_column df "Part ID" = Ok ids ->
  prediction_part_id pred ∉ ids ->
  (forall stats, process_prediction df process_map pred stats = Ok stats)
  /\ calculate_accuracy (before ++ pred :: after) df process_map
     = calculate_accuracy (before ++ after) df process_map.
Proof.
  intros Hids Hno.
  pose proof (process_prediction_unmatched df process_map pred ids Hids Hno) as Hskip.
  split; [exact Hskip|].
  unfold calculate_accuracy. rewrite !for_each_app.
  destruct (for_each _ before initial_stats) as [s|e]; [|done].
  by rewrite !result_bind_ok, for_each_cons, Hskip, result_bind_ok.
Qed.

Lemma unmatched_prediction_skipped_witness :
  normalized_column sample_table "Part ID" = Ok ["bracket_001"; "shaft_002"]
  /\ (prediction_part_id sample_unknown ∉ ["bracket_001"; "shaft_002"])
  /\ calculate_accuracy ([sample_bracket] ++ sample_unknown :: [sample_shaft])
       sample_table create_process_map
     = calculate_accuracy ([sample_bracket] ++ [sample_shaft])
         sample_table create_process_map.
Proof.
  assert (Hids : normalized_column sample_table "Part ID"
                 = Ok ["bracket_001"; "shaft_002"]) by (vm_compute; reflexivity).
  assert (Hno : prediction_part_id sample_unknown ∉ ["bracket_001"; "shaft_002"]).
  { by_evaluation. }
  split; [exact Hids|]. split; [exact Hno|].
  exact (proj2 (unmatched_prediction_skipped sample_table create_process_map
                  sample_unknown [sample_bracket] [sample_shaft] _ Hids Hno)).
Defined.

(** ** Tracked parameters *)

Lemma for_each_ext {A} (body body' : A -> _) l s :
  Forall (fun x => forall s, body x s = body' x s) l ->
  for_each body l s = for_each body' l s.
Proof.
  intros Hl. revert s. induction Hl as [|x l Hx _ IH]; intros s; [done|].
  simpl. rewrite Hx. destruct (body' x s); [|done]. simpl. apply IH.
Qed.

Lemma check_process_ext pred pred' actual pred_key excel_col s :
  pred !! pred_key = pred' !! pred_key ->
  pred !! "fab" = pred' !! "fab" -> pred !! "weld" = pred' !! "weld" ->
  pred !! "press" = pred' !! "press" -> pred !! "inserts" = pred' !! "inserts" ->
  check_process pred actual (pred_key, excel_col) s
  = check_process pred' actual (pred_key, excel_col) s.
Proof.
  intros Hk Hfab Hweld Hpress Hins.
  unfold check_process, dict_has, dict_get, dict_item.
  by rewrite Hk, Hfab, Hweld, Hpress, Hins.
Qed.

Lemma check_complexity_ext pred pred' actual s :
  pred !! "complexity_level" = pred' !! "complexity_level" ->
  check_complexity pred actual s = check_complexity pred' actual s.
Proof. intros H. unfold check_complexity, dict_has, dict_get. by rewrite H. Qed.

Lemma check_type_ext pred pred' actual s :
  pred !! "type" = pred' !! "type" ->
  check_type pred actual s = check_type pred' actual s.
Proof. intros H. unfold check_type, dict_has, dict_get. by rewrite H. Qed.

Lemma check_material_ext pred pred' actual s :
  pred !! "material" = pred' !! "material" ->
  check_material pred actual s = check_material pred' actual s.
Proof. intros H. unfold check_material, dict_has, dict_get. by rewrite H. Qed.

Lemma process_prediction_ext df pred pred' s :
  (forall key, key ∈ matching_keys ++ categorical_keys ++ create_process_map.*1 ->
               pred !! key = pred' !! key) ->
  process_prediction df create_process_map pred s
  = process_prediction df create_process_map pred' s.
Proof.
  intros Hsame.
  assert (Hid : prediction_part_id pred = prediction_part_id pred').
  { unfold prediction_part_id, dict_get.
    rewrite (Hsame "part_identifier"), (Hsame "part_name"), (Hsame "source_file")
      by by_evaluation. done. }
  unfold process_prediction. rewrite Hid.
  destruct (matching_rows df "Part ID" (prediction_part_id pred')) as [[|actual ms]|e];
    try done.
  rewrite !result_bind_ok. unfold compare_record.
  rewrite (check_complexity_ext pred pred') by (apply Hsame; by_evaluation).
  destruct (check_complexity pred' actual s) as [s1|e]; [|done].
  rewrite !result_bind_ok.
  rewrite (check_type_ext pred pred') by (apply Hsame; by_evaluation).
  destruct (check_type pred' actual s1) as [s2|e]; [|done].
  rewrite !result_bind_ok.
  rewrite (check_material_ext pred pred') by (apply Hsame; by_evaluation).
  destruct (check_material pred' actual s2) as [s3|e]; [|done].
  rewrite !result_bind_ok.
  apply for_each_ext, Forall_forall. intros [k c] Hitem s'.
  apply check_process_ext; apply Hsame; try by_evaluation.
  apply elem_of_app. right. apply elem_of_app. right.
  apply list_elem_of_fmap. by exists (k, c).
Qed.

(** C10, as the code has it: the run tracks the seventeen parameters, all
    at zero before the first prediction; after every prefix of the
    predictions the statistics have exactly these keys; and the outcome of
    a prediction depends only on the three identifier fields, the three
    categorical fields and the fields of the process map. *)
Theorem tracked_parameters_fixed :
  length initialize_parameters = 17
  /\ NoDup initialize_parameters
  /\ (forall param,
        initial_stats !! param =
        if bool_decide (param ∈ initialize_parameters)
        then Some {| correct := 0; total := 0 |} else None)
  /\ (forall predictions df n stats,
        calculate_accuracy (take n predictions) df create_process_map = Ok stats ->
        dom stats = list_to_set initialize_parameters)
  /\ (forall df pred pred' stats,
        (forall key,
           key ∈ matching_keys ++ categorical_keys ++ create_process_map.*1 ->
           pred !! key = pred' !! key) ->
        process_prediction df create_process_map pred stats
        = process_prediction df create_process_map pred' stats).
Proof.
  split; [done|]. split; [by_evaluation|].
  split; [apply initial_stats_lookup|]. split.
  - intros predictions df n stats (scores & ->)%calculate_accuracy_bumps.
    apply (tracked_bump_all scores), tracked_initial_stats.
  - intros df pred pred' stats. apply process_prediction_ext.
Qed.

Lemma tracked_parameters_fixed_witness :
  (exists stats,
     calculate_accuracy (take 3 [sample_bracket; sample_shaft; sample_unknown])
       sample_table create_process_map = Ok stats
     /\ dom stats = list_to_set initialize_parameters)
  /\ process_prediction sample_table create_process_map
       (<["part_notes" := PStr "deburr"]> sample_bracket) initial_stats
     = process_prediction sample_table create_process_map
         sample_bracket initial_stats.
Proof.
  destruct tracked_parameters_fixed as (_ & _ & _ & Hdom & Hext). split.
  - destruct (is_ok_Ok (calculate_accuracy
                          (take 3 [sample_bracket; sample_shaft; sample_unknown])
                          sample_table create_process_map))
      as [stats E]; [vm_compute; reflexivity|].
    exists stats. split; [exact E|]. exact (Hdom _ _ 3 stats E).
  - apply Hext. intros key Hkey. apply lookup_insert_ne. intros <-.
    revert Hkey. apply (bool_decide_unpack _). vm_compute. exact I.
Defined.

(** C10 fails as stated: [part_name] is neither a categorical key nor a
    key of the process map, and giving it to a prediction changes the
    counters of [Laser Cut]. *)
Lemma identifier_field_changes_counters :
  ("part_name" ∉ categorical_keys ++ create_process_map.*1)
  /\ counters_of "Laser Cut"
       (calculate_accuracy [sample_unknown] sample_table create_process_map)
     = Ok (Some (0, 0)%Z)
  /\ counters_of "Laser Cut"
       (calculate_accuracy [<["part_name" := PStr "shaft_002"]> sample_unknown]
          sample_table create_process_map)
     = Ok (Some (1, 1)%Z).
Proof.
  split; [by_evaluation|].
  split; vm_compute; reflexivity.
Qed.

(** ** Field comparator *)

Lemma bind_Ok_inv {A B} (m : result A) (f : A -> result B) b :
  m ≫= f = Ok b -> exists a, m = Ok a /\ f a = Ok b.
Proof. destruct m as [a|e]; [|done]. intros H. by exists a. Qed.

Lemma check_complexity_effect pred actual s :
  tracked s ->
  exists ok,
    check_complexity pred actual s
    = Ok (if dict_has pred "complexity_level" && series_has actual "Complexity Level"
          then bump "Complexity Level" ok s else s).
Proof.
  intros Hs. unfold check_complexity. destruct (_ && _); [|by exists true].
  eexists. apply score_bump, tracked_lookup; [done|by_evaluation].
Qed.

Lemma check_type_effect pred actual s :
  tracked s ->
  exists ok,
    check_type pred actual s
    = Ok (if dict_has pred "type" && series_has actual "Type"
          then bump "Type" ok s else s).
Proof.
  intros Hs. unfold check_type. destruct (_ && _); [|by exists true].
  eexists. apply score_bump, tracked_lookup; [done|by_evaluation].
Qed.

Lemma check_material_effect pred actual s :
  tracked s ->
  exists ok,
    check_material pred actual s
    = Ok (if dict_has pred "material" && series_has actual "Material"
          then bump "Material" ok s else s).
Proof.
  intros Hs. unfold check_material. destruct (_ && _); [|by exists true].
  eexists. apply score_bump, tracked_lookup; [done|by_evaluation].
Qed.

(** What one conditional scored comparison does to the counters of [col]. *)
Lemma bump_if_lookup (cond ok : bool) col s st :
  s !! col = Some st ->
  (if cond then bump col ok s else s) !! col
  = Some {| correct := (correct st + if cond && ok then 1 else 0)%Z;
            total := (total st + if cond then 1 else 0)%Z |}.
Proof.
  intros Hst. destruct cond; simpl.
  - rewrite lookup_bump. case_decide; [|done]. by rewrite Hst.
  - rewrite Hst. destruct st as [c t]. simpl. do 2 f_equal; lia.
Qed.

Lemma bump_if_other (cond ok : bool) col s j :
  col <> j -> (if cond then bump col ok s else s) !! j = s !! j.
Proof. intros Hne. destruct cond; [|done]. rewrite lookup_bump. by case_decide. Qed.

Lemma tracked_bump_if (cond ok : bool) col s :
  tracked s -> tracked (if cond then bump col ok s else s).
Proof. intros Hs. destruct cond; [by apply tracked_bump|done]. Qed.

(** C2, as the code has it: on a matched pair, the total of a categorical
    parameter goes up by one exactly when the prediction has the field and
    the ground-truth table has the column, whatever the cell holds; the
    count of correct answers goes up together with it or not at all. *)
Theorem categorical_counted_when_column_present
    (pred : gmap string pyval) (actual : Series)
    (stats stats' : gmap string ParameterStat) (key col : string) :
  (key, col) ∈ categorical_fields ->
  tracked stats ->
  compare_record create_process_map pred actual stats = Ok stats' ->
  exists st st' (ok : bool),
    stats !! col = Some st /\ stats' !! col = Some st'
    /\ total st' = (total st + if dict_has pred key && series_has actual col
                               then 1 else 0)%Z
    /\ correct st' = (correct st + if dict_has pred key && series_has actual col && ok
                                   then 1 else 0)%Z.
Proof.
  intros Hfield Hs Hrun. unfold compare_record in Hrun.
  apply bind_Ok_inv in Hrun as (s1 & H1 & Hrun).
  apply bind_Ok_inv in Hrun as (s2 & H2 & Hrun).
  apply bind_Ok_inv in Hrun as (s3 & H3 & Hloop).
  destruct (check_complexity_effect pred actual stats Hs) as (ok1 & E1).
  rewrite E1 in H1. injection H1 as H1.
  assert (Hs1 : tracked s1) by (rewrite <- H1; by apply tracked_bump_if).
  destruct (check_type_effect pred actual s1 Hs1) as (ok2 & E2).
  rewrite E2 in H2. injection H2 as H2.
  assert (Hs2 : tracked s2) by (rewrite <- H2; by apply tracked_bump_if).
  destruct (check_material_effect pred actual s2 Hs2) as (ok3 & E3).
  rewrite E3 in H3. injection H3 as H3.
  assert (Hs3 : tracked s3) by (rewrite <- H3; by apply tracked_bump_if).
  assert (Hframe : forall j, j ∉ create_process_map.*2 -> stats' !! j = s3 !! j).
  { intros j Hj.
    apply (scoring_frame _ _ _ _ j
             (scoring_process_loop create_process_map pred actual process_map_columns)
             Hs3 Hloop Hj). }
  assert (Hcol : col ∈ initialize_parameters).
  { repeat (apply elem_of_cons in Hfield as [[= -> ->]|Hfield]; [by_evaluation|]).
    by apply elem_of_nil in Hfield. }
  destruct (tracked_lookup stats col Hs Hcol) as [st Hst].
  clear E1 E2 E3 Hloop.
  set (c1 := dict_has pred "complexity_level" && series_has actual "Complexity Level") in *.
  set (c2 := dict_has pred "type" && series_has actual "Type") in *.
  set (c3 := dict_has pred "material" && series_has actual "Material") in *.
  repeat (apply elem_of_cons in Hfield as [[= -> ->]|Hfield]).
  - pose proof (bump_if_lookup c1 ok1 _ _ _ Hst) as Hl. rewrite H1 in Hl.
    rewrite <- (bump_if_other c2 ok2 "Type" s1), H2 in Hl by done.
    rewrite <- (bump_if_other c3 ok3 "Material" s2), H3 in Hl by done.
    rewrite <- Hframe in Hl by by_evaluation.
    eexists _, _, ok1. split; [exact Hst|]. split; [exact Hl|]. by split.
  - pose proof Hst as Hst1.
    rewrite <- (bump_if_other c1 ok1 "Complexity Level" stats), H1 in Hst1 by done.
    pose proof (bump_if_lookup c2 ok2 _ _ _ Hst1) as Hl. rewrite H2 in Hl.
    rewrite <- (bump_if_other c3 ok3 "Material" s2), H3 in Hl by done.
    rewrite <- Hframe in Hl by by_evaluation.
    eexists _, _, ok2. split; [exact Hst|]. split; [exact Hl|]. by split.
  - pose proof Hst as Hst2.
    rewrite <- (bump_if_other c1 ok1 "Complexity Level" stats), H1 in Hst2 by done.
    rewrite <- (bump_if_other c2 ok2 "Type" s1), H2 in Hst2 by done.
    pose proof (bump_if_lookup c3 ok3 _ _ _ Hst2) as Hl. rewrite H3 in Hl.
    rewrite <- Hframe in Hl by by_evaluation.
    eexists _, _, ok3. split; [exact Hst|]. split; [exact Hl|]. by split.
  - by apply elem_of_nil in Hfield.
Qed.

Lemma categorical_counted_when_column_present_witness :
  exists stats',
    compare_record create_process_map sample_shaft sample_shaft_row initial_stats
    = Ok stats'
    /\ exists st st' (ok : bool),
         initial_stats !! "Complexity Level" = Some st
         /\ stats' !! "Complexity Level" = Some st'
         /\ total st' = (total st + if dict_has sample_shaft "complexity_level"
                                       && series_has sample_shaft_row "Complexity Level"
                                    then 1 else 0)%Z
         /\ correct st' = (correct st + if dict_has sample_shaft "complexity_level"
                                           && series_has sample_shaft_row "Complexity Level"
                                           && ok
                                        then 1 else 0)%Z.
Proof.
  destruct (is_ok_Ok (compare_record create_process_map sample_shaft
                        sample_shaft_row initial_stats))
    as [stats' E]; [vm_compute; reflexivity|].
  exists stats'. split; [exact E|].
  apply (categorical_counted_when_column_present sample_shaft sample_shaft_row
           initial_stats stats' "complexity_level" "Complexity Level").
  - apply list_elem_of_here.
  - exact tracked_initial_stats.
  - exact E.
Defined.

(** C2 fails as stated: the row matched with [sample_shaft] has an empty
    (null) cell under [Complexity Level], and the total of that parameter
    is raised all the same. *)
Lemma null_cell_still_counted :
  dict_has sample_shaft "complexity_level" = true
  /\ isna (series_get sample_shaft_row "Complexity Level" (PStr "")) = true
  /\ counters_of "Complexity Level"
       (compare_record create_process_map sample_shaft sample_shaft_row initial_stats)
     = Ok (Some (0, 1)%Z)
  /\ counters_of "Complexity Level"
       (calculate_accuracy [sample_shaft] sample_table create_process_map)
     = Ok (Some (0, 1)%Z).
Proof. repeat split; vm_compute; reflexivity. Qed.

(** ** Combined columns *)

Lemma process_loop_frame process_map pred actual s s' j :
  Forall (fun item => item.2 ∈ initialize_parameters) process_map ->
  tracked s ->
  for_each (check_process pred actual) process_map s = Ok s' ->
  tracked s' /\ (j ∉ process_map.*2 -> s' !! j = s !! j).
Proof.
  intros Hpm Hs Hrun.
  pose proof (scoring_process_loop process_map pred actual Hpm) as Hsc. split.
  - by apply (scoring_tracked _ _ _ _ Hsc Hs Hrun).
  - by apply (scoring_frame _ _ _ _ j Hsc Hs Hrun).
Qed.

Lemma categorical_checks_frame pred actual s s' j :
  tracked s ->
  j ∉ ["Complexity Level"; "Type"; "Material"] ->
  (s1 ← check_complexity pred actual s;
   s2 ← check_type pred actual s1;
   check_material pred actual s2) = Ok s' ->
  tracked s' /\ s' !! j = s !! j.
Proof.
  intros Hs Hj Hrun.
  apply bind_Ok_inv in Hrun as (s1 & H1 & Hrun).
  apply bind_Ok_inv in Hrun as (s2 & H2 & H3).
  pose proof (scoring_tracked _ _ _ _ (scoring_check_complexity pred actual) Hs H1) as Hs1.
  pose proof (scoring_tracked _ _ _ _ (scoring_check_type pred actual) Hs1 H2) as Hs2.
  pose proof (scoring_tracked _ _ _ _ (scoring_check_material pred actual) Hs2 H3) as Hs3.
  split; [done|].
  rewrite !not_elem_of_cons in Hj. destruct Hj as (Hj1 & Hj2 & Hj3 & _).
  rewrite (scoring_frame _ _ _ _ j (scoring_check_material pred actual) Hs2 H3)
    by by intros ->%list_elem_of_singleton.
  rewrite (scoring_frame _ _ _ _ j (scoring_check_type pred actual) Hs1 H2)
    by by intros ->%list_elem_of_singleton.
  apply (scoring_frame _ _ _ _ j (scoring_check_complexity pred actual) Hs H1).
  by intros ->%list_elem_of_singleton.
Qed.

Lemma compare_record_stages process_map pred actual s s' :
  compare_record process_map pred actual s = Ok s' ->
  exists s3,
    (s1 ← check_complexity pred actual s;
     s2 ← check_type pred actual s1;
     check_material pred actual s2) = Ok s3
    /\ for_each (check_process pred actual) process_map s3 = Ok s'.
Proof.
  unfold compare_record. intros Hrun.
  apply bind_Ok_inv in Hrun as (s1 & H1 & Hrun).
  apply bind_Ok_inv in Hrun as (s2 & H2 & Hrun).
  apply bind_Ok_inv in Hrun as (s3 & H3 & Hloop).
  exists s3. split; [|done]. by rewrite H1, result_bind_ok, H2, result_bind_ok.
Qed.

Lemma check_process_absent pred actual pred_key excel_col s :
  pred !! pred_key = None ->
  check_process pred actual (pred_key, excel_col) s = Ok s.
Proof. intros H. unfold check_process, dict_has. by rewrite H. Qed.

Lemma check_process_weld pred actual s :
  check_process pred actual ("weld", "Fab Weld") s = Ok s.
Proof. unfold check_process. by destruct (_ || _). Qed.

Lemma check_process_inserts pred actual s :
  check_process pred actual ("inserts", "Press Inserts") s = Ok s.
Proof. unfold check_process. by destruct (_ || _). Qed.

(** The columns of the process map before and after the two keys of
    [Fab Weld]. *)
Lemma process_map_around_fab_weld :
  create_process_map
  = take 3 create_process_map
    ++ [("fab", "Fab Weld"); ("weld", "Fab Weld")]
    ++ drop 5 create_process_map.
Proof. reflexivity. Qed.

Lemma process_map_around_press_inserts :
  create_process_map
  = take 14 create_process_map
    ++ [("press", "Press Inserts"); ("inserts", "Press Inserts")].
Proof. reflexivity. Qed.

Lemma process_map_part_columns n :
  Forall (fun item => item.2 ∈ initialize_parameters) (take n create_process_map)
  /\ Forall (fun item => item.2 ∈ initialize_parameters) (drop n create_process_map).
Proof.
  split; [apply Forall_take|apply Forall_drop]; apply process_map_columns.
Qed.

(** What the loop over the process map does to [Fab Weld] is what its body
    does at the key [fab]. *)
Lemma fab_weld_loop pred actual s s' :
  tracked s ->
  for_each (check_process pred actual) create_process_map s = Ok s' ->
  exists s1 s2,
    tracked s1 /\ s1 !! "Fab Weld" = s !! "Fab Weld"
    /\ check_process pred actual ("fab", "Fab Weld") s1 = Ok s2
    /\ s' !! "Fab Weld" = s2 !! "Fab Weld".
Proof.
  intros Hs. rewrite process_map_around_fab_weld, for_each_app.
  intros Hrun.
  apply bind_Ok_inv in Hrun as (s1 & H1 & Hrun).
  rewrite for_each_app in Hrun.
  apply bind_Ok_inv in Hrun as (s2 & H2 & H3).
  destruct (process_map_part_columns 3) as [Hpre _].
  destruct (process_map_part_columns 5) as [_ Hpost].
  destruct (process_loop_frame _ _ _ _ _ "Fab Weld" Hpre Hs H1) as [Hs1 Hf1].
  rewrite for_each_cons in H2. apply bind_Ok_inv in H2 as (s2' & Hfab & H2).
  rewrite for_each_cons, check_process_weld, result_bind_ok in H2.
  injection H2 as ->.
  assert (Hs2 : tracked s2).
  { apply (scoring_tracked _ _ _ _
             (scoring_check_process pred actual "fab" "Fab Weld" ltac:(by_evaluation))
             Hs1 Hfab). }
  destruct (process_loop_frame _ _ _ _ _ "Fab Weld" Hpost Hs2 H3) as [_ Hf3].
  exists s1, s2. split; [done|]. split; [apply Hf1; by_evaluation|].
  split; [done|]. apply Hf3. by_evaluation.
Qed.

(** Without the key [fab] the column [Fab Weld] is not counted, whether
    or not the prediction has the key [weld]. *)
Lemma fab_weld_needs_fab pred actual stats stats' :
  tracked stats ->
  pred !! "fab" = None ->
  compare_record create_process_map pred actual stats = Ok stats' ->
  stats' !! "Fab Weld" = stats !! "Fab Weld".
Proof.
  intros Hs Hfab (s3 & Hcat & Hloop)%compare_record_stages.
  destruct (categorical_checks_frame _ _ _ _ "Fab Weld" Hs ltac:(by_evaluation) Hcat)
    as [Hs3 Hf3].
  destruct (fab_weld_loop _ _ _ _ Hs3 Hloop) as (s1 & s2 & Hs1 & Hf1 & Hstep & Hf2).
  rewrite check_process_absent in Hstep by done. injection Hstep as <-.
  by rewrite Hf2, Hf1, Hf3.
Qed.

(** With the key [fab], a column [Fab Weld] in the table and comparable
    predictions, the column is counted exactly once, with the larger of the
    two predictions. *)
Lemma fab_weld_counted_once pred actual stats stats' fab_pred combined st :
  tracked stats ->
  pred !! "fab" = Some fab_pred ->
  series_has actual "Fab Weld" = true ->
  py_max fab_pred (dict_get pred "weld" (PInt 0)) = Ok combined ->
  stats !! "Fab Weld" = Some st ->
  compare_record create_process_map pred actual stats = Ok stats' ->
  stats' !! "Fab Weld"
  = Some {| correct :=
              (correct st
               + if py_eq combined
                      (PInt (convert_excel_value
                               (series_get actual "Fab Weld" PNaN)))
                 then 1 else 0)%Z;
            total := (total st + 1)%Z |}.
Proof.
  intros Hs Hfab Hcol Hmax Hst (s3 & Hcat & Hloop)%compare_record_stages.
  destruct (categorical_checks_frame _ _ _ _ "Fab Weld" Hs ltac:(by_evaluation) Hcat)
    as [Hs3 Hf3].
  destruct (fab_weld_loop _ _ _ _ Hs3 Hloop) as (s1 & s2 & Hs1 & Hf1 & Hstep & Hf2).
  rewrite Hf2. rewrite <- Hf3, <- Hf1 in Hst.
  unfold check_process, dict_has in Hstep. rewrite Hfab, Hcol in Hstep.
  simpl in Hstep.
  destruct (series_has_item _ _ Hcol) as (i & _ & Hitem & Hget).
  rewrite Hitem in Hstep. unfold dict_get at 1 in Hstep. rewrite Hfab, Hmax in Hstep.
  rewrite (incr_total_some _ _ _ Hst) in Hstep. simpl in Hstep.
  rewrite Hget. destruct (py_eq combined _).
  - rewrite (incr_correct_some _ _ _ (lookup_insert_eq _ _ _)) in Hstep.
    injection Hstep as <-. by rewrite insert_insert_eq, lookup_insert_eq.
  - injection Hstep as <-. rewrite lookup_insert_eq. do 2 f_equal. simpl. lia.
Qed.

Lemma press_inserts_loop pred actual s s' :
  tracked s ->
  for_each (check_process pred actual) create_process_map s = Ok s' ->
  exists s1,
    tracked s1 /\ s1 !! "Press Inserts" = s !! "Press Inserts"
    /\ check_process pred actual ("press", "Press Inserts") s1 = Ok s'.
Proof.
  intros Hs. rewrite process_map_around_press_inserts, for_each_app.
  intros Hrun.
  apply bind_Ok_inv in Hrun as (s1 & H1 & H2).
  destruct (process_map_part_columns 14) as [Hpre _].
  destruct (process_loop_frame _ _ _ _ _ "Press Inserts" Hpre Hs H1) as [Hs1 Hf1].
  rewrite for_each_cons in H2. apply bind_Ok_inv in H2 as (s2 & Hpress & H2).
  rewrite for_each_cons, check_process_inserts, result_bind_ok in H2.
  injection H2 as ->.
  exists s1. split; [done|]. split; [apply Hf1; by_evaluation|done].
Qed.

(** Without the key [press] the column [Press Inserts] is not counted,
    whether or not the prediction has the key [inserts]. *)
Lemma press_inserts_needs_press pred actual stats stats' :
  tracked stats ->
  pred !! "press" = None ->
  compare_record create_process_map pred actual stats = Ok stats' ->
  stats' !! "Press Inserts" = stats !! "Press Inserts".
Proof.
  intros Hs Hpress (s3 & Hcat & Hloop)%compare_record_stages.
  destruct (categorical_checks_frame _ _ _ _ "Press Inserts" Hs ltac:(by_evaluation) Hcat)
    as [Hs3 Hf3].
  destruct (press_inserts_loop _ _ _ _ Hs3 Hloop) as (s1 & Hs1 & Hf1 & Hstep).
  rewrite check_process_absent in Hstep by done. injection Hstep as <-.
  by rewrite Hf1, Hf3.
Qed.

(** C1 at a prediction that has [weld] but not [fab], matched with a row
    whose [Fab Weld] cell is 1: the specification has the column counted
    once, as correct ([max(0, 1) = 1]); the code leaves its counters at
    zero. *)
Theorem combined_column_skipped_without_first_key :
  sample_shaft !! "fab" = None
  /\ sample_shaft !! "weld" = Some (PInt 1)
  /\ series_item sample_shaft_row "Fab Weld" = Ok (PInt 1)
  /\ (matching_rows sample_table "Part ID" (prediction_part_id sample_shaft)
      = Ok [sample_shaft_row])
  /\ py_max (dict_get sample_shaft "fab" (PInt 0))
            (dict_get sample_shaft "weld" (PInt 0)) = Ok (PInt 1)
  /\ counters_of "Fab Weld"
       (calculate_accuracy [sample_shaft] sample_table create_process_map)
     = Ok (Some (0, 0)%Z).
Proof. repeat split; vm_compute; reflexivity. Qed.

(** ** Reports *)

Lemma py_div_nonzero a b :
  b <> 0%Z -> py_div a b = Ok (inject_Z a / inject_Z b)%Q.
Proof. intros Hb. unfold py_div. by destruct (Z.eqb_spec b 0). Qed.

Lemma reported_cons_zero item items :
  total item.2 = 0%Z -> reported (item :: items) = reported items.
Proof. intros H. unfold reported. by rewrite filter_cons_False by (intros Hne; done). Qed.

Lemma reported_cons_nonzero item items :
  total item.2 <> 0%Z -> reported (item :: items) = item :: reported items.
Proof. intros H. unfold reported. by rewrite filter_cons_True. Qed.

Lemma sum_of_cons f item items :
  sum_of f (item :: items) = (f item.2 + sum_of f items)%Z.
Proof. reflexivity. Qed.

Lemma summary_lines_spec items lines oc ot :
  summary_lines items (lines, oc, ot)
  = Ok (lines ++ (summary_line_of <$> reported items),
        (oc + sum_of correct (reported items))%Z,
        (ot + sum_of total (reported items))%Z).
Proof.
  revert lines oc ot. induction items as [|[param st] items IH]; intros lines oc ot.
  - simpl. by rewrite app_nil_r, !Z.add_0_r.
  - simpl. destruct (Z.eqb_spec (total st) 0) as [Hz|Hnz].
    + rewrite result_bind_ok, IH, reported_cons_zero by done. done.
    + rewrite reported_cons_nonzero by done. rewrite py_div_nonzero by done.
      assert (Hacc : (if (total st >? 0)%Z
                      then (fun r : Q => (r * 100)%Q) <$>
                           Ok (inject_Z (correct st) / inject_Z (total st))%Q
                      else Ok 0%Q)
                     = Ok (summary_line_of (param, st)).2).
      { unfold summary_line_of. simpl. by destruct (total st >? 0)%Z. }
      rewrite Hacc, !result_bind_ok, IH. rewrite fmap_cons, !sum_of_cons.
      simpl. rewrite <- app_assoc, !Z.add_assoc. done.
Qed.

Lemma chart_bars_spec items bars :
  chart_bars items bars = Ok (bars ++ (chart_bar_of <$> reported items)).
Proof.
  revert bars. induction items as [|[param st] items IH]; intros bars.
  - simpl. by rewrite app_nil_r.
  - simpl. destruct (Z.eqb_spec (total st) 0) as [Hz|Hnz].
    + rewrite result_bind_ok, IH, reported_cons_zero by done. done.
    + rewrite reported_cons_nonzero, !py_div_nonzero by done. simpl.
      rewrite IH, <- app_assoc. done.
Qed.

Lemma sum_of_reported f items :
  Forall (fun item => total item.2 = 0%Z -> f item.2 = 0%Z) items ->
  sum_of f (reported items) = sum_of f items.
Proof.
  induction 1 as [|item items Hitem _ IH]; [done|].
  destruct (decide (total item.2 = 0%Z)) as [Hz|Hnz].
  - rewrite reported_cons_zero, sum_of_cons, IH, Hitem by done. done.
  - by rewrite reported_cons_nonzero, !sum_of_cons, IH.
Qed.

Lemma sum_of_total_nonneg items :
  Forall (fun item => (0 <= total item.2)%Z) items -> (0 <= sum_of total items)%Z.
Proof. induction 1 as [|item items Hitem _ IH]; [done|]. rewrite sum_of_cons. lia. Qed.

Lemma sum_of_total_zero items :
  Forall (fun item => (0 <= total item.2)%Z) items ->
  sum_of total items = 0%Z <-> reported items = [].
Proof.
  induction 1 as [|item items Hitem Hitems IH]; [done|].
  pose proof (sum_of_total_nonneg items Hitems). rewrite sum_of_cons.
  destruct (decide (total item.2 = 0%Z)) as [Hz|Hnz].
  - rewrite reported_cons_zero, Hz by done. rewrite <- IH. lia.
  - rewrite reported_cons_nonzero by done. split; [lia|done].
Qed.

Lemma consistent_items stats :
  consistent stats ->
  Forall (fun item => (0 <= correct item.2 <= total item.2)%Z) (map_to_list stats).
Proof.
  intros Hs. apply Forall_forall. intros [param st] Hin.
  apply elem_of_map_to_list in Hin. by apply (Hs param).
Qed.

Lemma position_elem label labels :
  label ∈ labels -> is_Some (position label labels).
Proof.
  induction labels as [|l ls IH]; [by intros ?%elem_of_nil|].
  intros Hin. simpl. destruct (String.eqb_spec l label) as [->|Hne]; [eauto|].
  apply elem_of_cons in Hin as [->|Hin]; [done|].
  destruct (IH Hin) as [i ->]. simpl. eauto.
Qed.

Lemma for_each_skip {A} (body : A -> _) l s :
  (forall x s, body x s = Ok s) -> for_each body l s = Ok s.
Proof.
  intros Hbody. induction l as [|x l IH]; [done|].
  by rewrite for_each_cons, Hbody, result_bind_ok.
Qed.

Lemma calculate_accuracy_no_rows predictions df :
  rows df = [] -> "Part ID" ∈ columns df ->
  calculate_accuracy predictions df create_process_map = Ok initial_stats.
Proof.
  intros Hrows [i Hpos]%position_elem. unfold calculate_accuracy.
  apply for_each_skip. intros pred s.
  apply (process_prediction_unmatched _ _ _ []); [|apply not_elem_of_nil].
  unfold normalized_column. by rewrite Hpos, Hrows.
Qed.

(** C6: a parameter whose total is zero has no line in the summary table
    and no bar in the chart, no division by zero is ever performed, and the
    overall accuracy is [100 * correct / total] over all parameters, or 0
    when the grand total is zero, as it is without predictions or without
    ground-truth rows. *)
Theorem zero_total_guard (stats : gmap string ParameterStat) :
  consistent stats ->
  let C := sum_of correct (map_to_list stats) in
  let T := sum_of total (map_to_list stats) in
  (exists lines,
     print_summary_table stats
     = Ok {| table_lines := lines;
             overall_line := (C, T, if (T =? 0)%Z then 0%Q else percent C T) |}
     /\ forall param c t acc,
          (param, c, t, acc) ∈ lines
          <-> stats !! param = Some {| correct := c; total := t |}
              /\ t <> 0%Z /\ acc = percent c t)
  /\ (exists bars,
        chart_bars (map_to_list stats) [] = Ok bars
        /\ forall param cp ip t,
             (param, cp, ip, t) ∈ bars
             <-> exists c, stats !! param = Some {| correct := c; total := t |}
                           /\ t <> 0%Z /\ cp = percent c t
                           /\ ip = percent (t - c) t)
  /\ create_visualization stats
     = Ok (if (T =? 0)%Z then None else Some (percent C T, C, T))
  /\ (forall df, calculate_accuracy [] df create_process_map = Ok initial_stats)
  /\ (forall predictions df,
        rows df = [] -> "Part ID" ∈ columns df ->
        calculate_accuracy predictions df create_process_map = Ok initial_stats)
  /\ sum_of total (map_to_list initial_stats) = 0%Z.
Proof.
  intros Hs C T.
  pose proof (consistent_items stats Hs) as Hitems.
  assert (HC : sum_of correct (reported (map_to_list stats)) = C).
  { apply sum_of_reported. eapply Forall_impl; [exact Hitems|]. simpl. lia. }
  assert (HT : sum_of total (reported (map_to_list stats)) = T).
  { apply sum_of_reported. eapply Forall_impl; [exact Hitems|]. simpl. lia. }
  assert (Hnonneg : Forall (fun item => (0 <= total item.2)%Z) (map_to_list stats)).
  { eapply Forall_impl; [exact Hitems|]. simpl. lia. }
  pose proof (sum_of_total_nonneg _ Hnonneg) as HT0. fold T in HT0.
  pose proof (sum_of_total_zero _ Hnonneg) as Hzero. fold T in Hzero.
  split; [|split; [|split; [|split; [done|split]]]].
  - exists (summary_line_of <$> reported (map_to_list stats)). split.
    + unfold print_summary_table. rewrite summary_lines_spec, result_bind_ok.
      rewrite HC, HT, !Z.add_0_l. simpl app.
      destruct (Z.eqb_spec T 0) as [Hz|Hnz].
      * rewrite Hz. done.
      * destruct (Z.gtb_spec T 0); [|lia]. by rewrite py_div_nonzero.
    + intros param c t acc. rewrite list_elem_of_fmap. split.
      * intros ([p st] & [= -> -> -> ->] & [Hnz Hin]%list_elem_of_filter).
        apply elem_of_map_to_list in Hin. simpl in *.
        pose proof (Hs p st Hin). destruct st as [c t]. simpl in *.
        split; [done|]. split; [done|]. by destruct (Z.gtb_spec t 0); [|lia].
      * intros (Hin & Hnz & ->). exists (param, {| correct := c; total := t |}).
        pose proof (Hs _ _ Hin). simpl in *. split.
        -- unfold summary_line_of. simpl. by destruct (Z.gtb_spec t 0); [|lia].
        -- apply list_elem_of_filter. split; [done|]. by apply elem_of_map_to_list.
  - exists (chart_bar_of <$> reported (map_to_list stats)). split.
    + by rewrite chart_bars_spec.
    + intros param cp ip t. rewrite list_elem_of_fmap. split.
      * intros ([p st] & [= -> -> -> ->] & [Hnz Hin]%list_elem_of_filter).
        apply elem_of_map_to_list in Hin. destruct st as [c t]. simpl in *.
        by exists c.
      * intros (c & Hin & Hnz & -> & ->).
        exists (param, {| correct := c; total := t |}). split; [done|].
        apply list_elem_of_filter. split; [done|]. by apply elem_of_map_to_list.
  - unfold create_visualization. rewrite chart_bars_spec, result_bind_ok.
    simpl app. fold C T. destruct (Z.eqb_spec T 0) as [Hz|Hnz].
    + apply Hzero in Hz. by rewrite Hz.
    + destruct (reported (map_to_list stats)) as [|item items] eqn:E.
      { exfalso. by apply Hnz, Hzero. }
      rewrite fmap_cons. destruct (Z.gtb_spec T 0); [|lia].
      by rewrite py_div_nonzero.
  - apply calculate_accuracy_no_rows.
  - vm_compute. reflexivity.
Qed.

Lemma zero_total_guard_witness :
  exists stats,
    calculate_accuracy [sample_bracket; sample_shaft] sample_table create_process_map
    = Ok stats
    /\ consistent stats
    /\ create_visualization stats
       = Ok (if (sum_of total (map_to_list stats) =? 0)%Z then None
             else Some (percent (sum_of correct (map_to_list stats))
                          (sum_of total (map_to_list stats)),
                        sum_of correct (map_to_list stats),
                        sum_of total (map_to_list stats))).
Proof.
  destruct (is_ok_Ok (calculate_accuracy [sample_bracket; sample_shaft]
                        sample_table create_process_map))
    as [stats E]; [vm_compute; reflexivity|].
  assert (Hs : consistent stats).
  { apply calculate_accuracy_bumps in E as (scores & ->).
    apply consistent_bump_all, consistent_initial_stats. }
  exists stats. split; [exact E|]. split; [exact Hs|].
  exact (proj1 (proj2 (proj2 (zero_total_guard stats Hs)))).
Defined.

(** The summary of the sample run: six parameters are reported, and seven
    of the eight comparisons are correct. *)
Lemma sample_summary :
  (fun table => (length (table_lines table), (overall_line table).1))
    <$> (calculate_accuracy [sample_bracket; sample_shaft] sample_table
           create_process_map ≫= print_summary_table)
  = Ok (6, (7, 8)%Z).
Proof. vm_compute. reflexivity. Qed.

(** ** The scenarios of the specification *)

Example suffix_stripping :
  normalize_part_id (PStr "bracket_001.pdf") = normalize_part_id (PStr "bracket_001")
  /\ normalize_part_id (PStr "shaft (1).PDF") = normalize_part_id (PStr "shaft").
Proof. split; vm_compute; reflexivity. Qed.

Example scenario_single_fields :
  let run :=
    calculate_accuracy
      [list_to_map [("part_name", PStr "bracket_001.pdf");
                    ("laser_cut", PInt 0); ("saw_shear", PInt 1)]]
      {| columns := ["Part ID"; "Laser Cut"; "Saw/Shear"];
         rows := [[PStr "bracket_001.pdf"; PInt 0; PInt 1]] |}
      create_process_map in
  counters_of "Laser Cut" run = Ok (Some (1, 1)%Z)
  /\ counters_of "Saw/Shear" run = Ok (Some (1, 1)%Z).
Proof. split; vm_compute; reflexivity. Qed.

Example scenario_combined_field :
  let table := {| columns := ["Part ID"; "Fab Weld"];
                  rows := [[PStr "p"; PInt 1]] |} in
  counters_of "Fab Weld"
    (calculate_accuracy
       [list_to_map [("part_name", PStr "p"); ("fab", PInt 1); ("weld", PInt 0)]]
       table create_process_map) = Ok (Some (1, 1)%Z)
  /\ counters_of "Fab Weld"
       (calculate_accuracy
          [list_to_map [("part_name", PStr "p"); ("fab", PInt 0); ("weld", PInt 0)]]
          table create_process_map) = Ok (Some (0, 1)%Z)
  /\ py_max (PInt 0) (PInt 1) = Ok (PInt 1)
  /\ py_max (PInt 0) (PInt 0) = Ok (PInt 0).
Proof. repeat split; vm_compute; reflexivity. Qed.

Example scenario_material :
  counters_of "Material"
    (calculate_accuracy
       [list_to_map [("part_name", PStr "p"); ("material", PStr "Steel")]]
       {| columns := ["Part ID"; "Material"];
          rows := [[PStr "p"; PStr "Mild Steel"]] |}
       create_process_map) = Ok (Some (1, 1)%Z).
Proof. vm_compute. reflexivity. Qed.

(** A ground truth without a [Part ID] column stops the run at the first
    prediction. *)
Example no_part_id_column :
  calculate_accuracy [sample_unknown]
    {| columns := ["Laser Cut"]; rows := [[PInt 1]] |} create_process_map
  = Raise KeyError.
Proof. vm_compute. reflexivity. Qed.

(** Predictions that cannot be compared with each other stop the run. *)
Example incomparable_predictions :
  is_ok (calculate_accuracy
           [list_to_map [("part_name", PStr "p"); ("fab", PStr "yes"); ("weld", PInt 1)]]
           {| columns := ["Part ID"; "Fab Weld"]; rows := [[PStr "p"; PInt 1]] |}
           create_process_map) = false.
Proof. vm_compute. reflexivity. Qed.

(** * Further properties *)

(** ** Identifier normalizer: trailing markers and fixed points *)







(** X2: the normalized identifier has no white space around it and is
    never longer than the text it was made from. *)
Theorem normalize_part_id_trimmed_and_bounded (v : pyval) :
  strip (normalize_part_id v) = normalize_part_id v
  /\ lstrip (normalize_part_id v) = normalize_part_id v
  /\ rstrip (normalize_part_id v) = normalize_part_id v
  /\ String.length (normalize_part_id v) ≤ String.length (py_str v).
Proof.
  rewrite normalize_part_id_unfold. split; [apply strip_idem|].
  split; [apply lstrip_rstrip, lstrip_idem|]. split; [apply rstrip_idem|].
  etrans; [apply strip_length|]. apply strip_markers_length, markers_nonempty.
Qed.

(** X3: the texts the normalizer leaves as they are, are exactly those
    that contain no marker and have no white space around them. *)
Theorem normalize_part_id_fixed_point (s : string) :
  normalize_part_id (PStr s) = s
  <-> (forall m, m ∈ markers -> is_substring m s = false) /\ strip s = s.
Proof.
  rewrite normalize_part_id_unfold. simpl py_str. split.
  - intros Heq.
    assert (Habs : forall m, m ∈ markers -> is_substring m s = false).
    { intros m Hm. destruct (is_substring m s) eqn:E; [|done]. exfalso.
      pose proof (strip_markers_shorter markers s m markers_nonempty Hm E).
      pose proof (strip_length (strip_markers markers s)).
      apply (f_equal String.length) in Heq. lia. }
    split; [done|]. by rewrite strip_markers_absent in Heq by (done || apply markers_nonempty).
  - intros [Habs Hstrip].
    by rewrite strip_markers_absent by (done || apply markers_nonempty).
Qed.

(** ** Record matcher: the first matching row *)

Lemma select_rows_fmap df (test : list pyval -> bool) :
  select_rows df (test <$> rows df)
  = (fun row => {| index := columns df; values := row |})
      <$> filter (fun row => test row = true) (rows df).
Proof.
  unfold select_rows. generalize (rows df). intros rs.
  induction rs as [|r rs IH]; [done|].
  rewrite fmap_cons. simpl zip. destruct (test r) eqn:E.
  - rewrite !filter_cons_True by done. rewrite !fmap_cons. simpl. by rewrite IH.
  - rewrite !filter_cons_False by (simpl; congruence). done.
Qed.

Lemma matching_rows_filter df label part_id i :
  position label (columns df) = Some i ->
  matching_rows df label part_id
  = Ok ((fun row => {| index := columns df; values := row |})
          <$> filter (fun row =>
                        bool_decide (normalize_part_id (PStr (py_str (cell i row)))
                                     = part_id) = true)
                     (rows df)).
Proof.
  intros Hpos. unfold matching_rows, normalized_column. rewrite Hpos, result_bind_ok.
  rewrite <- list_fmap_compose. f_equal.
  apply (select_rows_fmap df
           (fun row => bool_decide (normalize_part_id (PStr (py_str (cell i row)))
                                    = part_id))).
Qed.

(** X4: the first match wins.  When several rows have the normalized Part
    ID of a prediction, the prediction is compared with the first of them
    in table order; the rows after it do not matter. *)
Theorem first_match_wins
    (cols : list string) (before after : list (list pyval)) (row : list pyval)
    (process_map : list (string * string)) (pred : gmap string pyval)
    (stats : gmap string ParameterStat) (i : nat) :
  position "Part ID" cols = Some i ->
  Forall (fun r => normalize_part_id (PStr (py_str (cell i r)))
                   <> prediction_part_id pred) before ->
  normalize_part_id (PStr (py_str (cell i row))) = prediction_part_id pred ->
  process_prediction {| columns := cols; rows := before ++ row :: after |}
    process_map pred stats
  = compare_record process_map pred {| index := cols; values := row |} stats.
Proof.
  intros Hpos Hbefore Hrow. unfold process_prediction.
  rewrite (matching_rows_filter _ _ _ i) by done. rewrite result_bind_ok.
  simpl rows. simpl columns. rewrite filter_app.
  assert (Hnone : filter (fun r => bool_decide
                    (normalize_part_id (PStr (py_str (cell i r)))
                     = prediction_part_id pred) = true) before = []).
  { induction Hbefore as [|r rs Hr _ IH]; [done|].
    rewrite filter_cons_False; [done|]. by rewrite bool_decide_eq_true. }
  rewrite Hnone, app_nil_l, filter_cons_True by by rewrite bool_decide_eq_true.
  by rewrite fmap_cons.
Qed.

Lemma first_match_wins_witness :
  let pred : gmap string pyval :=
    list_to_map [("part_name", PStr "b"); ("laser_cut", PInt 1)] in
  process_prediction
    {| columns := ["Part ID"; "Laser Cut"];
       rows := [[PStr "a"; PInt 0]] ++ [PStr "b.pdf"; PInt 1] :: [[PStr "b"; PInt 0]] |}
    create_process_map pred initial_stats
  = compare_record create_process_map pred
      {| index := ["Part ID"; "Laser Cut"]; values := [PStr "b.pdf"; PInt 1] |}
      initial_stats.
Proof.
  intros pred.
  apply (first_match_wins ["Part ID"; "Laser Cut"] [[PStr "a"; PInt 0]]
           [[PStr "b"; PInt 0]] [PStr "b.pdf"; PInt 1] create_process_map pred
           initial_stats 0).
  - reflexivity.
  - by_evaluation.
  - vm_compute. reflexivity.
Defined.

(** ** Predictions that carry no scored field *)

Lemma for_each_skip_in {A} (body : A -> _) l s :
  (forall x, x ∈ l -> forall s, body x s = Ok s) -> for_each body l s = Ok s.
Proof.
  induction l as [|x l IH]; intros Hbody; [done|].
  rewrite for_each_cons, Hbody, result_bind_ok by apply list_elem_of_here.
  apply IH. intros y Hy. apply Hbody. by apply list_elem_of_further.
Qed.

(** X5: a prediction that has none of the scored fields -- such as the
    record [analyze_part] returns when the analysis failed, which holds
    only [error] and [source_file] -- changes no counter, whether or not a
    row matches it. *)
Theorem unscored_prediction_ignored
    (df : DataFrame) (pred : gmap string pyval)
    (stats : gmap string ParameterStat) :
  (forall key, key ∈ categorical_keys ++ create_process_map.*1 -> pred !! key = None) ->
  "Part ID" ∈ columns df ->
  process_prediction df create_process_map pred stats = Ok stats.
Proof.
  intros Hnone [i Hpos]%position_elem. unfold process_prediction.
  rewrite (matching_rows_filter _ _ _ i) by done. rewrite result_bind_ok.
  destruct (_ <$> filter _ (rows df)) as [|actual matches]; [done|].
  unfold compare_record, check_complexity, check_type, check_material, dict_has.
  rewrite (Hnone "complexity_level"), (Hnone "type"), (Hnone "material")
    by by_evaluation.
  rewrite !andb_false_l, !result_bind_ok.
  apply for_each_skip_in. intros [k c] Hitem s.
  apply check_process_absent, Hnone, elem_of_app. right.
  apply list_elem_of_fmap. by exists (k, c).
Qed.

Lemma unscored_prediction_ignored_witness :
  let failed : gmap string pyval :=
    list_to_map [("error", PStr "timeout"); ("source_file", PStr "shaft_002.pdf")] in
  is_ok (matching_rows sample_table "Part ID" (prediction_part_id failed)) = true
  /\ process_prediction sample_table create_process_map failed initial_stats
     = Ok initial_stats.
Proof.
  intros failed. split; [vm_compute; reflexivity|].
  apply unscored_prediction_ignored.
  - intros key Hkey.
    repeat (apply elem_of_cons in Hkey as [->|Hkey]; [by vm_compute|]).
    by apply elem_of_nil in Hkey.
  - by_evaluation.
Defined.

(** ** The material comparison *)

Lemma is_substring_empty s : is_substring "" s = true.
Proof. by destruct s. Qed.

Lemma is_substring_refl s : is_substring s s = true.
Proof.
  destruct s as [|c s]; [done|]. rewrite is_substring_cons.
  rewrite <- (str_app_nil_r (String c s)) at 2. by rewrite starts_with_app.
Qed.

Lemma check_material_scored pred actual s v i :
  tracked s ->
  pred !! "material" = Some v ->
  position "Material" (index actual) = Some i ->
  check_material pred actual s
  = Ok (bump "Material"
          (is_substring (lower (py_str v)) (lower (py_str (cell i (values actual))))
           || is_substring (lower (py_str (cell i (values actual)))) (lower (py_str v)))
          s).
Proof.
  intros Hs Hv Hi. unfold check_material, dict_has, dict_get, series_has, series_get.
  rewrite Hv, Hi. simpl andb. cbv iota.
  apply score_bump, tracked_lookup; [done|by_evaluation].
Qed.

(** X6: the material comparison is a containment test in either direction
    on lower-cased texts, so it counts as correct every pair of texts that
    are equal up to case -- and also every pair in which one text is empty,
    whatever the other is. *)
Theorem material_match_by_containment
    (pred : gmap string pyval) (actual : Series)
    (stats : gmap string ParameterStat) (v : pyval) (i : nat) :
  tracked stats ->
  pred !! "material" = Some v ->
  position "Material" (index actual) = Some i ->
  (lower (py_str v) = lower (py_str (cell i (values actual)))
   \/ py_str v = "" \/ py_str (cell i (values actual)) = "") ->
  check_material pred actual stats = Ok (bump "Material" true stats).
Proof.
  intros Hs Hv Hi Hcase. rewrite (check_material_scored _ _ _ v i) by done.
  do 2 f_equal. destruct Hcase as [Heq|[Hempty|Hempty]].
  - by rewrite Heq, is_substring_refl.
  - by rewrite Hempty, is_substring_empty.
  - rewrite Hempty. simpl lower. by rewrite is_substring_empty, orb_true_r.
Qed.

Lemma material_match_by_containment_witness :
  check_material (<["material" := PStr ""]> sample_shaft) sample_shaft_row initial_stats
  = Ok (bump "Material" true initial_stats).
Proof.
  apply (material_match_by_containment _ _ _ (PStr "") 3).
  - exact tracked_initial_stats.
  - apply lookup_insert_eq.
  - reflexivity.
  - right. left. reflexivity.
Defined.

(** ** No parameter is scored twice for one prediction *)

Lemma occurrences_app param l1 l2 :
  occurrences param (l1 ++ l2) = occurrences param l1 + occurrences param l2.
Proof. unfold occurrences. by rewrite filter_app, length_app. Qed.

Lemma occurrences_not_in param names : param ∉ names -> occurrences param names = 0.
Proof.
  unfold occurrences. induction names as [|c cs IH]; [done|].
  intros [Hne Hcs]%not_elem_of_cons. rewrite filter_cons_False by congruence. auto.
Qed.

Lemma occurrences_NoDup param names : NoDup names -> occurrences param names ≤ 1.
Proof.
  induction 1 as [|c cs Hc _ IH]; [unfold occurrences; simpl; lia|].
  unfold occurrences in *. destruct (decide (c = param)) as [->|Hne].
  - rewrite filter_cons_True by done. simpl.
    pose proof (occurrences_not_in param cs Hc) as H0. unfold occurrences in H0. lia.
  - by rewrite filter_cons_False.
Qed.

Lemma tallying_ext cols f g : (forall s, f s = g s) -> tallying cols g -> tallying cols f.
Proof.
  intros Hfg (r & Hl & Hr). exists r. split; [done|].
  intros s Hs. rewrite Hfg. by apply Hr.
Qed.

Lemma tallying_ok cols : tallying cols Ok.
Proof.
  exists (Ok []). split; [|done]. intros l param [= <-]. unfold occurrences. simpl. lia.
Qed.

Lemma tallying_bind cols1 cols2 f g :
  tallying cols1 f -> tallying cols2 g -> tallying (cols1 ++ cols2) (fun s => f s ≫= g).
Proof.
  intros (r1 & Hl1 & Hr1) (r2 & Hl2 & Hr2).
  exists (l1 ← r1; l2 ← r2; Ok (l1 ++ l2)). split.
  - intros l param. destruct r1 as [l1|e1]; simpl; [|done].
    destruct r2 as [l2|e2]; simpl; [|done]. intros [= <-].
    rewrite fmap_app, !occurrences_app.
    specialize (Hl1 l1 param eq_refl). specialize (Hl2 l2 param eq_refl). lia.
  - intros s Hs. rewrite (Hr1 s Hs). destruct r1 as [l1|e1]; simpl; [|done].
    rewrite Hr2 by by apply tracked_bump_all.
    destruct r2 as [l2|e2]; simpl; [|done]. by rewrite bump_all_app.
Qed.

Lemma tallying_score param (ok : result bool) :
  param ∈ initialize_parameters ->
  tallying [param] (fun s => s1 ← incr_total param s; b ← ok;
                             if b : bool then incr_correct param s1 else Ok s1).
Proof.
  intros Hin. exists (b ← ok; Ok [(param, b)]). split.
  - intros l p. destruct ok as [b|e1]; simpl; [|done]. by intros [= <-].
  - intros s Hs. pose proof (tracked_lookup s param Hs Hin) as Hsome.
    destruct ok as [b|e1]; simpl.
    + by rewrite <- (score_bump param b s Hsome).
    + destruct Hsome as [st Hst]. by rewrite (incr_total_some _ _ _ Hst).
Qed.

Lemma tallying_for_each {A} (cols_of : A -> list string) (body : A -> _) items :
  (forall x, tallying (cols_of x) (body x)) ->
  tallying (concat (cols_of <$> items)) (for_each body items).
Proof.
  intros Hbody. induction items as [|x items IH]; [apply tallying_ok|].
  rewrite fmap_cons. simpl concat.
  apply (tallying_bind _ _ (body x) (for_each body items)); [apply Hbody|apply IH].
Qed.

Lemma tallying_check_complexity pred actual :
  tallying ["Complexity Level"] (check_complexity pred actual).
Proof.
  unfold check_complexity. destruct (_ && _); [|apply tallying_ok].
  apply (tallying_score "Complexity Level" (Ok _)). by_evaluation.
Qed.

Lemma tallying_check_type pred actual : tallying ["Type"] (check_type pred actual).
Proof.
  unfold check_type. destruct (_ && _); [|apply tallying_ok].
  apply (tallying_score "Type" (Ok _)). by_evaluation.
Qed.

Lemma tallying_check_material pred actual :
  tallying ["Material"] (check_material pred actual).
Proof.
  unfold check_material. destruct (_ && _); [|apply tallying_ok].
  apply (tallying_score "Material" (Ok _)). by_evaluation.
Qed.

Lemma tallying_combined param a b cval :
  param ∈ initialize_parameters ->
  tallying [param] (fun s =>
    s1 ← incr_total param s;
    combined_pred ← py_max a b;
    actual_val ← convert_excel_value <$> Ok cval;
    if py_eq combined_pred (PInt actual_val)
    then incr_correct param s1 else Ok s1).
Proof.
  intros Hin.
  apply (tallying_ext _ _ (fun s =>
    s1 ← incr_total param s;
    ok ← (combined_pred ← py_max a b;
          Ok (py_eq combined_pred (PInt (convert_excel_value cval))));
    if ok : bool then incr_correct param s1 else Ok s1)).
  - intros s. destruct (incr_total param s); [|done]. simpl.
    by destruct (py_max a b).
  - by apply tallying_score.
Qed.

(** The iteration of the second key of a combined column does nothing. *)
Lemma check_process_second_key pred actual pred_key excel_col s :
  pred_key ∈ ["weld"; "inserts"] ->
  check_process pred actual (pred_key, excel_col) s = Ok s.
Proof.
  intros Hkey. unfold check_process. destruct (_ || _); [done|].
  destruct (String.eqb excel_col "Fab Weld");
    [by repeat (apply elem_of_cons in Hkey as [->|Hkey]; [done|]);
        apply elem_of_nil in Hkey|].
  destruct (String.eqb excel_col "Press Inserts");
    [by repeat (apply elem_of_cons in Hkey as [->|Hkey]; [done|]);
        apply elem_of_nil in Hkey|].
  by rewrite (bool_decide_eq_true_2 _ Hkey).
Qed.

Lemma tallying_check_process pred actual pred_key excel_col :
  excel_col ∈ initialize_parameters ->
  tallying (scored_columns (pred_key, excel_col))
           (check_process pred actual (pred_key, excel_col)).
Proof.
  intros Hin. unfold scored_columns. simpl. case_bool_decide as Hkey.
  { apply (tallying_ext _ _ Ok); [|apply tallying_ok].
    intros s. by apply check_process_second_key. }
  unfold check_process.
  destruct (dict_has pred pred_key) eqn:Hk; [|apply tallying_ok].
  destruct (series_has actual excel_col) eqn:Hc; [|apply tallying_ok].
  simpl negb. simpl orb. cbv iota.
  destruct (series_has_item _ _ Hc) as (i & _ & -> & _).
  destruct (dict_has_item _ _ Hk) as (v & _ & -> & _).
  destruct (String.eqb excel_col "Fab Weld").
  { destruct (String.eqb pred_key "fab"); [|apply tallying_ok].
    by apply tallying_combined. }
  destruct (String.eqb excel_col "Press Inserts").
  { destruct (String.eqb pred_key "press"); [|apply tallying_ok].
    by apply tallying_combined. }
  destruct (negb (bool_decide (pred_key ∈ ["weld"; "inserts"]))); [|apply tallying_ok].
  by apply (tallying_score excel_col (Ok _)).
Qed.

Lemma tallying_compare_record pred actual :
  tallying (record_columns create_process_map)
           (compare_record create_process_map pred actual).
Proof.
  unfold compare_record, record_columns.
  apply (tallying_bind ["Complexity Level"] _ (check_complexity pred actual));
    [apply tallying_check_complexity|].
  apply (tallying_bind ["Type"] _ (check_type pred actual));
    [apply tallying_check_type|].
  apply (tallying_bind ["Material"] _ (check_material pred actual));
    [apply tallying_check_material|].
  apply (tallying_ext _ _ (for_each (check_process pred actual) create_process_map));
    [done|].
  generalize process_map_columns. generalize create_process_map.
  intros pm Hpm. induction Hpm as [|[k c] pm Hc _ IH]; [apply tallying_ok|].
  rewrite fmap_cons. simpl concat.
  apply (tallying_bind _ _ (check_process pred actual (k, c))
           (for_each (check_process pred actual) pm)); [|exact IH].
  by apply tallying_check_process.
Qed.

Lemma tallying_process_prediction df pred i :
  position "Part ID" (columns df) = Some i ->
  tallying (record_columns create_process_map)
           (process_prediction df create_process_map pred).
Proof.
  intros Hpos. unfold process_prediction.
  rewrite (matching_rows_filter _ _ _ i) by done.
  destruct (_ <$> filter _ (rows df)) as [|actual matches]; [apply tallying_ok|].
  apply (tallying_ext _ _ (compare_record create_process_map pred actual)); [done|].
  apply tallying_compare_record.
Qed.

Lemma record_columns_NoDup : NoDup (record_columns create_process_map).
Proof. by_evaluation. Qed.

Lemma occurrences_concat_const {A} param (cols : list string) (l : list A) :
  occurrences param (concat ((fun _ => cols) <$> l))
  = length l * occurrences param cols.
Proof.
  induction l as [|x l IH]; [done|].
  rewrite fmap_cons. simpl concat. rewrite occurrences_app, IH. simpl. lia.
Qed.

Lemma bump_total param ok s j st' :
  bump param ok s !! j = Some st' ->
  exists st, s !! j = Some st
             /\ total st' = (total st + Z.of_nat (occurrences j [param]))%Z.
Proof.
  rewrite lookup_bump. unfold occurrences. case_decide as Hp.
  - destruct (s !! j) as [st|]; [|done]. simpl. intros [= <-]. exists st.
    split; [done|]. rewrite filter_cons_True by done. simpl. lia.
  - intros Hj. exists st'. split; [done|].
    rewrite filter_cons_False by done. simpl. lia.
Qed.

Lemma bump_all_total l s j st' :
  bump_all l s !! j = Some st' ->
  exists st, s !! j = Some st
             /\ total st' = (total st + Z.of_nat (occurrences j l.*1))%Z.
Proof.
  revert s. induction l as [|[p o] l IH]; intros s.
  - intros Hst. exists st'. split; [exact Hst|]. unfold occurrences. simpl. lia.
  - rewrite bump_all_cons. intros (st1 & Hst1 & Ht1)%IH.
    apply bump_total in Hst1 as (st & Hst & Ht). exists st. split; [done|].
    rewrite fmap_cons. change (((p, o).1 :: l.*1)) with ([p] ++ l.*1).
    rewrite occurrences_app. simpl in *. lia.
Qed.

(** X7: no parameter is compared more than once for one prediction, so in
    the statistics of a run no total exceeds the number of predictions. *)
Theorem total_at_most_predictions
    (predictions : list (gmap string pyval)) (df : DataFrame)
    (stats : gmap string ParameterStat) (param : string) (st : ParameterStat) :
  calculate_accuracy predictions df create_process_map = Ok stats ->
  stats !! param = Some st ->
  (0 <= total st <= Z.of_nat (length predictions))%Z.
Proof.
  unfold calculate_accuracy. intros Hrun Hst.
  destruct (position "Part ID" (columns df)) as [i|] eqn:Hpos.
  - pose proof (tallying_for_each (fun _ => record_columns create_process_map)
                  (process_prediction df create_process_map) predictions
                  (fun pred => tallying_process_prediction df pred i Hpos))
      as (r & Hl & Hr).
    rewrite (Hr _ tracked_initial_stats) in Hrun.
    destruct r as [l|e]; [|done]. simpl in Hrun. injection Hrun as <-.
    apply bump_all_total in Hst as (st0 & Hst0 & ->).
    rewrite initial_stats_lookup in Hst0. case_bool_decide; [|done].
    injection Hst0 as <-. simpl.
    specialize (Hl l param eq_refl). rewrite occurrences_concat_const in Hl.
    pose proof (occurrences_NoDup param _ record_columns_NoDup). nia.
  - rewrite (for_each_raise _ KeyError) in Hrun
      by (intros; by apply process_prediction_no_column).
    destruct predictions; [|done]. injection Hrun as <-.
    rewrite initial_stats_lookup in Hst. case_bool_decide; [|done].
    injection Hst as <-. simpl. lia.
Qed.

Lemma total_at_most_predictions_witness :
  exists stats st,
    calculate_accuracy [sample_bracket; sample_shaft; sample_unknown]
      sample_table create_process_map = Ok stats
    /\ stats !! "Laser Cut" = Some st
    /\ (0 <= total st <= 3)%Z.
Proof.
  destruct (is_ok_Ok (calculate_accuracy [sample_bracket; sample_shaft; sample_unknown]
                        sample_table create_process_map))
    as [stats E]; [vm_compute; reflexivity|].
  assert (Hsome : is_Some (stats !! "Laser Cut")).
  { apply calculate_accuracy_bumps in E as (scores & ->).
    apply tracked_lookup; [apply tracked_bump_all, tracked_initial_stats|by_evaluation]. }
  destruct Hsome as [st Hst]. exists stats, st. split; [exact E|]. split; [exact Hst|].
  exact (total_at_most_predictions _ _ stats "Laser Cut" st E Hst).
Defined.

(** ** Batches of predictions *)

Lemma lookup_stats_add s d j :
  stats_add s d !! j = union_with (fun a b => Some (stat_add a b)) (s !! j) (d !! j).
Proof. unfold stats_add. apply lookup_union_with. Qed.

Lemma tracked_same_keys s d j : tracked s -> tracked d -> is_Some (s !! j) -> is_Some (d !! j).
Proof.
  unfold tracked. intros Hs Hd Hj. apply elem_of_dom. rewrite Hd, <- Hs.
  by apply elem_of_dom.
Qed.

Lemma stats_add_initial s : tracked s -> stats_add s initial_stats = s.
Proof.
  intros Hs. apply map_eq. intros j. rewrite lookup_stats_add, initial_stats_lookup.
  destruct (s !! j) as [[c t]|] eqn:E.
  - pose proof (tracked_same_keys s initial_stats j Hs tracked_initial_stats
                  ltac:(by rewrite E)) as [st0 H0].
    rewrite initial_stats_lookup in H0. case_bool_decide; [|done].
    simpl. unfold stat_add. simpl. do 2 f_equal; lia.
  - case_bool_decide as Hin; [|done].
    destruct (tracked_lookup s j Hs Hin) as [st Hst]. congruence.
Qed.

Lemma bump_stats_add p o s d :
  tracked s -> tracked d -> bump p o (stats_add s d) = stats_add s (bump p o d).
Proof.
  intros Hs Hd. apply map_eq. intros j.
  rewrite lookup_bump, !lookup_stats_add, lookup_bump. case_decide as Hp; [|done].
  subst j. destruct (s !! p) as [a|] eqn:Ea, (d !! p) as [b|] eqn:Eb; simpl; try done.
  - unfold stat_add. simpl. do 2 f_equal; lia.
  - pose proof (tracked_same_keys s d p Hs Hd ltac:(by rewrite Ea)) as [? ?]. congruence.
Qed.

Lemma bump_all_stats_add l s :
  tracked s -> bump_all l s = stats_add s (bump_all l initial_stats).
Proof.
  intros Hs. induction l as [|[p o] l IH].
  - simpl. by rewrite stats_add_initial.
  - rewrite !bump_all_cons, !bump_all_bump, IH. simpl.
    rewrite bump_stats_add; [done|done|apply tracked_bump_all, tracked_initial_stats].
Qed.

(** X8: the statistics of a list of predictions processed in one run are
    the sums, parameter by parameter, of the statistics of its two parts
    processed separately; the run raises what the first failing part
    raises. *)
Theorem calculate_accuracy_batches
    (batch1 batch2 : list (gmap string pyval)) (df : DataFrame) :
  calculate_accuracy (batch1 ++ batch2) df create_process_map
  = match calculate_accuracy batch1 df create_process_map,
          calculate_accuracy batch2 df create_process_map with
    | Ok stats1, Ok stats2 => Ok (stats_add stats1 stats2)
    | Ok _, Raise e => Raise e
    | Raise e, _ => Raise e
    end.
Proof.
  unfold calculate_accuracy. rewrite for_each_app.
  destruct (for_each _ batch1 initial_stats) as [s1|e1] eqn:E1; [|done].
  rewrite result_bind_ok.
  destruct (process_prediction_cases df create_process_map process_map_columns)
    as [Hsc|Herr].
  - assert (Hs1 : tracked s1).
    { destruct (for_each_bumps _ _ _ _ Hsc tracked_initial_stats E1) as (l & ->).
      apply tracked_bump_all, tracked_initial_stats. }
    assert (Hloop : scoring initialize_parameters
                      (for_each (process_prediction df create_process_map) batch2)).
    { apply scoring_for_each, Forall_forall. auto. }
    destruct Hloop as (r & _ & _ & Hr).
    rewrite (Hr s1 Hs1), (Hr _ tracked_initial_stats).
    destruct r as [l|e]; simpl; [|done]. by rewrite (bump_all_stats_add l s1).
  - rewrite !(for_each_raise _ KeyError) by done.
    destruct batch2; [|done]. rewrite stats_add_initial; [done|].
    rewrite (for_each_raise _ KeyError) in E1 by done.
    destruct batch1; [|done]. injection E1 as <-. apply tracked_initial_stats.
Qed.

(** ** What a run can raise *)



Lemma py_max_numbers a b :
  is_number a = true -> is_number b = true -> exists m, py_max a b = Ok m.
Proof.
  unfold py_max, py_gt, mbind, result_bind, mret, result_ret.
  destruct a, b; simpl; try done; eauto.
Qed.

Lemma check_process_returns pred actual pred_key excel_col s :
  combined_fields_numeric pred ->
  excel_col ∈ initialize_parameters ->
  tracked s ->
  exists s', check_process pred actual (pred_key, excel_col) s = Ok s'.
Proof.
  intros Hnum Hin Hs. unfold check_process.
  destruct (dict_has pred pred_key) eqn:Hk; [|eauto].
  destruct (series_has actual excel_col) eqn:Hc; [|rewrite orb_true_r; eauto].
  simpl negb. simpl orb. cbv iota.
  destruct (series_has_item _ _ Hc) as (i & _ & -> & _).
  destruct (dict_has_item _ _ Hk) as (v & _ & -> & _).
  pose proof (tracked_lookup s excel_col Hs Hin) as Hsome.
  assert (Hget : forall key, key ∈ ["fab"; "weld"; "press"; "inserts"] ->
                             is_number (dict_get pred key (PInt 0)) = true).
  { intros key Hkey. unfold dict_get. destruct (pred !! key) as [w|] eqn:E; [|done].
    by apply (Hnum key). }
  destruct (String.eqb excel_col "Fab Weld").
  { destruct (String.eqb pred_key "fab"); [|eauto].
    destruct (py_max_numbers (dict_get pred "fab" (PInt 0)) (dict_get pred "weld" (PInt 0)))
      as [m Hm]; [apply Hget; by_evaluation..|].
    rewrite Hm. eexists. apply (score_bump excel_col _ s Hsome). }
  destruct (String.eqb excel_col "Press Inserts").
  { destruct (String.eqb pred_key "press"); [|eauto].
    destruct (py_max_numbers (dict_get pred "press" (PInt 0))
                (dict_get pred "inserts" (PInt 0)))
      as [m Hm]; [apply Hget; by_evaluation..|].
    rewrite Hm. eexists. apply (score_bump excel_col _ s Hsome). }
  destruct (negb (bool_decide (pred_key ∈ ["weld"; "inserts"]))); [|eauto].
  eexists. apply (score_bump excel_col _ s Hsome).
Qed.

Lemma process_loop_returns pred actual process_map s :
  combined_fields_numeric pred ->
  Forall (fun item => item.2 ∈ initialize_parameters) process_map ->
  tracked s ->
  exists s', for_each (check_process pred actual) process_map s = Ok s'.
Proof.
  intros Hnum Hpm. revert s. induction Hpm as [|[k c] pm Hc _ IH]; intros s Hs; [by eexists|].
  destruct (check_process_returns pred actual k c s Hnum Hc Hs) as [s1 H1].
  rewrite for_each_cons, H1, result_bind_ok. apply IH.
  by apply (scoring_tracked _ _ _ _ (scoring_check_process pred actual k c Hc) Hs H1).
Qed.

Lemma compare_record_returns pred actual s :
  combined_fields_numeric pred -> tracked s ->
  exists s', compare_record create_process_map pred actual s = Ok s'.
Proof.
  intros Hnum Hs. unfold compare_record.
  destruct (check_complexity_effect pred actual s Hs) as (ok1 & E1).
  rewrite E1, result_bind_ok.
  set (c1 := dict_has pred "complexity_level" && series_has actual "Complexity Level") in *.
  pose proof (tracked_bump_if c1 ok1 "Complexity Level" s Hs) as Hs1.
  destruct (check_type_effect pred actual _ Hs1) as (ok2 & E2).
  rewrite E2, result_bind_ok.
  set (c2 := dict_has pred "type" && series_has actual "Type") in *.
  pose proof (tracked_bump_if c2 ok2 "Type" _ Hs1) as Hs2.
  destruct (check_material_effect pred actual _ Hs2) as (ok3 & E3).
  rewrite E3, result_bind_ok.
  set (c3 := dict_has pred "material" && series_has actual "Material") in *.
  pose proof (tracked_bump_if c3 ok3 "Material" _ Hs2) as Hs3.
  by apply process_loop_returns; [|apply process_map_columns|].
Qed.



(** ** The reports of consistent statistics *)



Lemma sums_of_consistent stats :
  consistent stats ->
  sum_of correct (reported (map_to_list stats)) = sum_of correct (map_to_list stats)
  /\ sum_of total (reported (map_to_list stats)) = sum_of total (map_to_list stats)
  /\ (0 <= sum_of correct (map_to_list stats) <= sum_of total (map_to_list stats))%Z
  /\ (sum_of total (map_to_list stats) = 0%Z <-> reported (map_to_list stats) = []).
Proof.
  intros Hs. pose proof (consistent_items stats Hs) as Hitems.
  split; [|split; [|split]].
  - apply sum_of_reported. eapply Forall_impl; [exact Hitems|]. simpl. lia.
  - apply sum_of_reported. eapply Forall_impl; [exact Hitems|]. simpl. lia.
  - induction Hitems as [|item items Hitem _ IH]; [done|]. rewrite !sum_of_cons. lia.
  - apply sum_of_total_zero. eapply Forall_impl; [exact Hitems|]. simpl. lia.
Qed.

Lemma print_summary_table_consistent stats :
  consistent stats ->
  print_summary_table stats
  = Ok {| table_lines := summary_line_of <$> reported (map_to_list stats);
          overall_line :=
            (sum_of correct (map_to_list stats), sum_of total (map_to_list stats),
             if (sum_of total (map_to_list stats) =? 0)%Z then 0%Q
             else percent (sum_of correct (map_to_list stats))
                          (sum_of total (map_to_list stats))) |}.
Proof.
  intros Hs. destruct (sums_of_consistent stats Hs) as (HC & HT & Hle & _).
  unfold print_summary_table. rewrite summary_lines_spec, result_bind_ok.
  rewrite HC, HT, !Z.add_0_l. simpl app.
  destruct (Z.eqb_spec (sum_of total (map_to_list stats)) 0) as [Hz|Hnz].
  - by rewrite Hz.
  - destruct (Z.gtb_spec (sum_of total (map_to_list stats)) 0); [|lia].
    by rewrite py_div_nonzero.
Qed.

Lemma create_visualization_consistent stats :
  consistent stats ->
  create_visualization stats
  = Ok (if (sum_of total (map_to_list stats) =? 0)%Z then None
        else Some (percent (sum_of correct (map_to_list stats))
                     (sum_of total (map_to_list stats)),
                   sum_of correct (map_to_list stats),
                   sum_of total (map_to_list stats))).
Proof.
  intros Hs. destruct (sums_of_consistent stats Hs) as (_ & _ & Hle & Hzero).
  unfold create_visualization. rewrite chart_bars_spec, result_bind_ok. simpl app.
  destruct (Z.eqb_spec (sum_of total (map_to_list stats)) 0) as [Hz|Hnz].
  - apply Hzero in Hz. by rewrite Hz.
  - destruct (reported (map_to_list stats)) as [|item items] eqn:E.
    { exfalso. by apply Hnz, Hzero. }
    rewrite fmap_cons. destruct (Z.gtb_spec (sum_of total (map_to_list stats)) 0); [|lia].
    by rewrite py_div_nonzero.
Qed.

(** X11: how [main] ends.  Without one of the two files it exits with
    code 1.  Otherwise it fails with what the accuracy calculation raises;
    it fails with a [TypeError], before the summary table is printed, when
    no comparison was made at all (no prediction matched a row, or none had
    a scored field); and in every other case it completes, and the OVERALL
    line of the table agrees with the figures returned for the chart. *)
Theorem main_outcome
    (predictions : list (gmap string pyval)) (ground_truth : DataFrame)
    (exists_ : bool) :
  main false exists_ predictions ground_truth = Exited 1
  /\ main true false predictions ground_truth = Exited 1
  /\ main true true predictions ground_truth
     = match calculate_accuracy predictions ground_truth create_process_map with
       | Raise e => Failed e
       | Ok stats =>
         let C := sum_of correct (map_to_list stats) in
         let T := sum_of total (map_to_list stats) in
         if (T =? 0)%Z then Failed TypeError
         else Completed (percent C T, C, T)
                {| table_lines := summary_line_of <$> reported (map_to_list stats);
                   overall_line := (C, T, percent C T) |}
       end.
Proof.
  split; [done|]. split; [done|]. unfold main. simpl negb. cbv iota zeta.
  destruct (calculate_accuracy predictions ground_truth create_process_map)
    as [stats|e] eqn:E; [|done].
  assert (Hs : consistent stats).
  { apply calculate_accuracy_bumps in E as (scores & ->).
    apply consistent_bump_all, consistent_initial_stats. }
  rewrite create_visualization_consistent, print_summary_table_consistent by done.
  by destruct (sum_of total (map_to_list stats) =? 0)%Z.
Qed.

(** A run in which nothing matches ends in a [TypeError]. *)
Example main_without_matches :
  main true true [sample_unknown] sample_table = Failed TypeError.
Proof. vm_compute. reflexivity. Qed.



(** ** Every parameter of a record *)

Lemma tallies_ext cols f g : (forall s, f s = g s) -> tallies cols g -> tallies cols f.
Proof.
  intros Hfg (r & Hl & Hr). exists r. split; [done|].
  intros s Hs. rewrite Hfg. by apply Hr.
Qed.

Lemma tallies_ok : tallies [] Ok.
Proof. exists (Ok []). split; [|done]. by intros l [= <-]. Qed.

Lemma tallies_bind cols1 cols2 f g :
  tallies cols1 f -> tallies cols2 g -> tallies (cols1 ++ cols2) (fun s => f s ≫= g).
Proof.
  intros (r1 & Hl1 & Hr1) (r2 & Hl2 & Hr2).
  exists (l1 ← r1; l2 ← r2; Ok (l1 ++ l2)). split.
  - intros l. destruct r1 as [l1|e1]; simpl; [|done].
    destruct r2 as [l2|e2]; simpl; [|done]. intros [= <-].
    by rewrite fmap_app, (Hl1 l1), (Hl2 l2).
  - intros s Hs. rewrite (Hr1 s Hs). destruct r1 as [l1|e1]; simpl; [|done].
    rewrite Hr2 by by apply tracked_bump_all.
    destruct r2 as [l2|e2]; simpl; [|done]. by rewrite bump_all_app.
Qed.

Lemma tallies_score param (ok : result bool) :
  param ∈ initialize_parameters ->
  tallies [param] (fun s => s1 ← incr_total param s; b ← ok;
                            if b : bool then incr_correct param s1 else Ok s1).
Proof.
  intros Hin. exists (b ← ok; Ok [(param, b)]). split.
  - intros l. destruct ok as [b|e1]; simpl; [|done]. by intros [= <-].
  - intros s Hs. pose proof (tracked_lookup s param Hs Hin) as Hsome.
    destruct ok as [b|e1]; simpl.
    + by rewrite <- (score_bump param b s Hsome).
    + destruct Hsome as [st Hst]. by rewrite (incr_total_some _ _ _ Hst).
Qed.

Lemma tallies_combined param a b cval :
  param ∈ initialize_parameters ->
  tallies [param] (fun s =>
    s1 ← incr_total param s;
    combined_pred ← py_max a b;
    actual_val ← convert_excel_value <$> Ok cval;
    if py_eq combined_pred (PInt actual_val)
    then incr_correct param s1 else Ok s1).
Proof.
  intros Hin.
  apply (tallies_ext _ _ (fun s =>
    s1 ← incr_total param s;
    ok ← (combined_pred ← py_max a b;
          Ok (py_eq combined_pred (PInt (convert_excel_value cval))));
    if ok : bool then incr_correct param s1 else Ok s1)).
  - intros s. destruct (incr_total param s); [|done]. simpl.
    by destruct (py_max a b).
  - by apply tallies_score.
Qed.

Lemma tallies_check_complexity pred actual :
  tallies (counted_columns pred actual ("complexity_level", "Complexity Level"))
          (check_complexity pred actual).
Proof.
  unfold check_complexity, counted_columns. simpl fst. simpl snd.
  destruct (_ && _); [|apply tallies_ok].
  apply (tallies_score "Complexity Level" (Ok _)). by_evaluation.
Qed.

Lemma tallies_check_type pred actual :
  tallies (counted_columns pred actual ("type", "Type")) (check_type pred actual).
Proof.
  unfold check_type, counted_columns. simpl fst. simpl snd.
  destruct (_ && _); [|apply tallies_ok].
  apply (tallies_score "Type" (Ok _)). by_evaluation.
Qed.

Lemma tallies_check_material pred actual :
  tallies (counted_columns pred actual ("material", "Material"))
          (check_material pred actual).
Proof.
  unfold check_material, counted_columns. simpl fst. simpl snd.
  destruct (_ && _); [|apply tallies_ok].
  apply (tallies_score "Material" (Ok _)). by_evaluation.
Qed.

(** In the process map the combined columns stand with their own keys
    only. *)
Lemma process_map_combined_keys :
  Forall (fun item =>
            (item.2 = "Fab Weld" -> item.1 ∈ ["fab"; "weld"])
            /\ (item.2 = "Press Inserts" -> item.1 ∈ ["press"; "inserts"]))
         create_process_map.
Proof. by_evaluation. Qed.

Lemma tallies_check_process pred actual pred_key excel_col :
  excel_col ∈ initialize_parameters ->
  (excel_col = "Fab Weld" -> pred_key ∈ ["fab"; "weld"]) ->
  (excel_col = "Press Inserts" -> pred_key ∈ ["press"; "inserts"]) ->
  tallies (counted_columns pred actual (pred_key, excel_col))
          (check_process pred actual (pred_key, excel_col)).
Proof.
  intros Hin Hfab Hpress. unfold counted_columns, scored_columns. simpl fst. simpl snd.
  case_bool_decide as Hkey.
  { apply (tallies_ext _ _ Ok).
    - intros s. by apply check_process_second_key.
    - destruct (_ && _); apply tallies_ok. }
  unfold check_process.
  destruct (dict_has pred pred_key) eqn:Hk; [|apply tallies_ok].
  destruct (series_has actual excel_col) eqn:Hc; [|apply tallies_ok].
  simpl negb. simpl orb. simpl andb. cbv iota.
  destruct (series_has_item _ _ Hc) as (i & _ & -> & _).
  destruct (dict_has_item _ _ Hk) as (v & _ & -> & _).
  destruct (String.eqb_spec excel_col "Fab Weld") as [Hcol|_].
  { destruct (String.eqb_spec pred_key "fab") as [_|Hne]; [by apply tallies_combined|].
    exfalso. apply Hfab in Hcol. apply Hkey.
    apply elem_of_cons in Hcol as [->|Hcol]; [done|].
    apply list_elem_of_singleton in Hcol as ->. by_evaluation. }
  destruct (String.eqb_spec excel_col "Press Inserts") as [Hcol|_].
  { destruct (String.eqb_spec pred_key "press") as [_|Hne]; [by apply tallies_combined|].
    exfalso. apply Hpress in Hcol. apply Hkey.
    apply elem_of_cons in Hcol as [->|Hcol]; [done|].
    apply list_elem_of_singleton in Hcol as ->. by_evaluation. }
  rewrite (bool_decide_eq_false_2 _ Hkey). simpl negb. cbv iota.
  by apply (tallies_score excel_col (Ok _)).
Qed.

Lemma tallies_compare_record pred actual :
  tallies (concat (counted_columns pred actual
                     <$> categorical_fields ++ create_process_map))
          (compare_record create_process_map pred actual).
Proof.
  unfold compare_record, categorical_fields.
  change (concat (counted_columns pred actual <$> _))
    with (counted_columns pred actual ("complexity_level", "Complexity Level")
          ++ counted_columns pred actual ("type", "Type")
          ++ counted_columns pred actual ("material", "Material")
          ++ concat (counted_columns pred actual <$> create_process_map)).
  apply (tallies_bind _ _ (check_complexity pred actual));
    [apply tallies_check_complexity|].
  apply (tallies_bind _ _ (check_type pred actual)); [apply tallies_check_type|].
  apply (tallies_bind _ _ (check_material pred actual)); [apply tallies_check_material|].
  apply (tallies_ext _ _ (for_each (check_process pred actual) create_process_map));
    [done|].
  pose proof process_map_columns as Hcols. pose proof process_map_combined_keys as Hkeys.
  revert Hcols Hkeys. generalize create_process_map. intros pm Hcols Hkeys.
  induction pm as [|[k c] pm IH]; [apply tallies_ok|].
  apply Forall_cons in Hcols as [Hc Hcols]. apply Forall_cons in Hkeys as [[Hf Hp] Hkeys].
  rewrite fmap_cons. simpl concat.
  apply (tallies_bind _ _ (check_process pred actual (k, c))
           (for_each (check_process pred actual) pm)); [|by apply IH].
  by apply tallies_check_process.
Qed.

Lemma counted_columns_sub pred actual item :
  counted_columns pred actual item ⊆ scored_columns item.
Proof.
  unfold counted_columns. destruct (_ && _); [done|]. intros x Hx. by apply elem_of_nil in Hx.
Qed.

Lemma elem_of_concat_fmap {A} (f : A -> list string) x y l :
  x ∈ f y -> y ∈ l -> x ∈ concat (f <$> l).
Proof.
  intros Hx. induction l as [|z l IH]; [by intros ?%elem_of_nil|].
  rewrite fmap_cons. simpl concat. intros [->|Hy]%elem_of_cons; apply elem_of_app; auto.
Qed.

Lemma occurrences_counted pred actual items key col :
  NoDup (concat (scored_columns <$> items)) ->
  (key, col) ∈ items ->
  key ∉ ["weld"; "inserts"] ->
  occurrences col (concat (counted_columns pred actual <$> items))
  = if dict_has pred key && series_has actual col then 1 else 0.
Proof.
  intros Hnd Hin Hkey. induction items as [|item items IH]; [by apply elem_of_nil in Hin|].
  rewrite fmap_cons in Hnd. simpl concat in Hnd. apply NoDup_app in Hnd as (_ & Hdisj & Hnd).
  rewrite fmap_cons. simpl concat. rewrite occurrences_app.
  assert (Hsub : forall l : list (string * string),
             concat (counted_columns pred actual <$> l)
             ⊆ concat (scored_columns <$> l)).
  { induction l as [|x l IHl]; [done|]. rewrite !fmap_cons. simpl concat.
    intros y [Hy|Hy]%elem_of_app; apply elem_of_app; [left|right; by apply IHl].
    by apply (counted_columns_sub pred actual x). }
  apply elem_of_cons in Hin as [<-|Hin].
  - rewrite (occurrences_not_in col (concat _)).
    + unfold counted_columns, scored_columns. simpl fst. simpl snd.
      rewrite (bool_decide_eq_false_2 _ Hkey).
      destruct (_ && _); unfold occurrences; [by rewrite filter_cons_True|done].
    + intros Hc%Hsub. apply (Hdisj col); [|done].
      unfold scored_columns. simpl fst. rewrite (bool_decide_eq_false_2 _ Hkey).
      apply list_elem_of_here.
  - rewrite IH by done.
    rewrite (occurrences_not_in col (counted_columns pred actual item)); [done|].
    intros Hc%counted_columns_sub. apply (Hdisj col Hc).
    apply (elem_of_concat_fmap scored_columns col (key, col)); [|done].
    unfold scored_columns. simpl fst. rewrite (bool_decide_eq_false_2 _ Hkey).
    apply list_elem_of_here.
Qed.

Lemma scoring_fields_spec key col :
  (key, col) ∈ scoring_fields ->
  (key, col) ∈ categorical_fields ++ create_process_map
  /\ (key ∉ ["weld"; "inserts"]) /\ col ∈ initialize_parameters.
Proof.
  unfold scoring_fields. intros [Hin|Hin]%elem_of_app.
  - split; [apply elem_of_app; by left|].
    unfold categorical_fields in Hin.
    repeat (apply elem_of_cons in Hin as [[= -> ->]|Hin]; [split; by_evaluation|]).
    by apply elem_of_nil in Hin.
  - apply list_elem_of_filter in Hin as [Hkey Hin]. simpl in Hkey.
    split; [apply elem_of_app; by right|]. split; [done|].
    pose proof process_map_columns as Hcols. rewrite Forall_forall in Hcols.
    by apply (Hcols (key, col)).
Qed.

Lemma record_columns_all :
  NoDup (concat (scored_columns <$> categorical_fields ++ create_process_map)).
Proof. by_evaluation. Qed.

Lemma compare_record_counts pred actual stats stats' key col :
  (key, col) ∈ scoring_fields ->
  tracked stats ->
  compare_record create_process_map pred actual stats = Ok stats' ->
  exists st st',
    stats !! col = Some st /\ stats' !! col = Some st'
    /\ total st' = (total st + if dict_has pred key && series_has actual col
                               then 1 else 0)%Z
    /\ grows st st'.
Proof.
  intros (Hin & Hkey & Hcol)%scoring_fields_spec Hs Hrun.
  destruct (tallies_compare_record pred actual) as (r & Hl & Hr).
  rewrite (Hr _ Hs) in Hrun. destruct r as [l|e]; [|done]. simpl in Hrun.
  injection Hrun as <-. specialize (Hl l eq_refl).
  destruct (tracked_lookup _ col (tracked_bump_all l _ Hs) Hcol) as [st' Hst'].
  destruct (bump_all_total _ _ _ _ Hst') as (st & Hst & Ht).
  destruct (bump_all_grows _ _ _ _ Hst') as (st0 & Hst0 & Hg).
  assert (st0 = st) as -> by congruence.
  exists st, st'. split; [done|]. split; [done|]. split; [|done].
  rewrite Ht, Hl, (occurrences_counted pred actual _ key col)
    by (done || apply record_columns_all).
  by destruct (_ && _).
Qed.

(** X13: each of the seventeen parameters has one field of the prediction
    it is scored by ([fab] for [Fab Weld], [press] for [Press Inserts]).
    Comparing a prediction with a row raises the total of a parameter by one
    exactly when the prediction has that field and the row has the column,
    and leaves it as it was otherwise; the count of correct answers rises
    by no more than the total. *)
Theorem parameter_counted_when_field_and_column_present
    (pred : gmap string pyval) (actual : Series)
    (stats stats' : gmap string ParameterStat) (key col : string) :
  (key, col) ∈ scoring_fields ->
  tracked stats ->
  compare_record create_process_map pred actual stats = Ok stats' ->
  scoring_fields.*2 = initialize_parameters
  /\ exists st st',
       stats !! col = Some st /\ stats' !! col = Some st'
       /\ total st' = (total st + if dict_has pred key && series_has actual col
                                  then 1 else 0)%Z
       /\ (correct st <= correct st' <= correct st + (total st' - total st))%Z.
Proof.
  intros Hin Hs Hrun. split; [reflexivity|].
  destruct (compare_record_counts pred actual stats stats' key col Hin Hs Hrun)
    as (st & st' & Hst & Hst' & Ht & Hc & _ & Hd).
  exists st, st'. split; [done|]. split; [done|]. split; [done|]. lia.
Qed.

Lemma parameter_counted_when_field_and_column_present_witness :
  exists stats',
    compare_record create_process_map sample_shaft sample_shaft_row initial_stats
    = Ok stats'
    /\ exists st st',
         initial_stats !! "Laser Cut" = Some st /\ stats' !! "Laser Cut" = Some st'
         /\ total st' = (total st + if dict_has sample_shaft "laser_cut"
                                       && series_has sample_shaft_row "Laser Cut"
                                    then 1 else 0)%Z
         /\ (correct st <= correct st' <= correct st + (total st' - total st))%Z.
Proof.
  destruct (is_ok_Ok (compare_record create_process_map sample_shaft
                        sample_shaft_row initial_stats))
    as [stats' E]; [vm_compute; reflexivity|].
  exists stats'. split; [exact E|].
  apply (parameter_counted_when_field_and_column_present sample_shaft sample_shaft_row
           initial_stats stats' "laser_cut" "Laser Cut").
  - by_evaluation.
  - exact tracked_initial_stats.
  - exact E.
Defined.

(** ** Complete predictions against the template *)

Lemma counted_columns_all pred actual items :
  (forall item, item ∈ items -> item.1 ∉ ["weld"; "inserts"] ->
                dict_has pred item.1 && series_has actual item.2 = true) ->
  concat (counted_columns pred actual <$> items) = concat (scored_columns <$> items).
Proof.
  induction items as [|item items IH]; intros Hall; [done|].
  rewrite !fmap_cons. simpl concat.
  rewrite IH by (intros x Hx; apply Hall; by apply list_elem_of_further).
  f_equal. unfold counted_columns, scored_columns. case_bool_decide as Hkey.
  - by destruct (_ && _).
  - by rewrite Hall by (done || apply list_elem_of_here).
Qed.

Lemma series_has_elem actual label :
  label ∈ index actual -> series_has actual label = true.
Proof. intros [i Hi]%position_elem. unfold series_has. by rewrite Hi. Qed.

Lemma template_has_columns :
  Forall (fun item => item.2 ∈ columns create_template)
         (categorical_fields ++ create_process_map).
Proof. by_evaluation. Qed.

Lemma record_columns_once :
  Forall (fun param =>
            occurrences param
              (concat (scored_columns <$> categorical_fields ++ create_process_map))
            = 1)
         initialize_parameters.
Proof. by_evaluation. Qed.

Lemma complete_record_counts pred actual s :
  tracked s ->
  combined_fields_numeric pred ->
  (forall key, key ∈ scoring_fields.*1 -> is_Some (pred !! key)) ->
  index actual = columns create_template ->
  exists s',
    compare_record create_process_map pred actual s = Ok s' /\ tracked s'
    /\ forall param st', param ∈ initialize_parameters -> s' !! param = Some st' ->
         exists st, s !! param = Some st /\ total st' = (total st + 1)%Z.
Proof.
  intros Hs Hnum Hkeys Hindex.
  destruct (compare_record_returns pred actual s Hnum Hs) as [s' Hrun].
  exists s'. split; [done|].
  destruct (tallies_compare_record pred actual) as (r & Hl & Hr).
  rewrite (Hr _ Hs) in Hrun. destruct r as [l|e]; [|done]. simpl in Hrun.
  injection Hrun as <-. specialize (Hl l eq_refl).
  split; [by apply tracked_bump_all|].
  intros param st' Hparam Hst'.
  destruct (bump_all_total _ _ _ _ Hst') as (st & Hst & Ht).
  exists st. split; [done|]. rewrite Ht, Hl, counted_columns_all.
  - pose proof record_columns_once as Honce. rewrite Forall_forall in Honce.
    by rewrite (Honce param Hparam).
  - intros [key col] Hitem Hkey. simpl fst in *. simpl snd. apply andb_true_iff. split.
    + unfold dict_has.
      destruct (Hkeys key) as [v ->]; [|done].
      apply list_elem_of_fmap. exists (key, col). split; [done|].
      unfold scoring_fields. apply elem_of_app in Hitem as [Hitem|Hitem];
        apply elem_of_app; [by left|right].
      by apply list_elem_of_filter.
    + apply series_has_elem. rewrite Hindex.
      pose proof template_has_columns as Hcols. rewrite Forall_forall in Hcols.
      by apply (Hcols (key, col)).
Qed.

Lemma process_prediction_matched df pred ids :
  normalized_column df "Part ID" = Ok ids ->
  prediction_part_id pred ∈ ids ->
  exists row,
    row ∈ rows df
    /\ forall s, process_prediction df create_process_map pred s
                 = compare_record create_process_map pred
                     {| index := columns df; values := row |} s.
Proof.
  unfold normalized_column.
  destruct (position "Part ID" (columns df)) as [i|] eqn:Hpos; [|done].
  intros [= <-] (row & Hrow & Hin)%list_elem_of_fmap.
  pose (P := fun r : list pyval =>
               bool_decide (normalize_part_id (PStr (py_str (cell i r)))
                            = prediction_part_id pred) = true).
  assert (Hmatch : row ∈ filter P (rows df)).
  { apply list_elem_of_filter. split; [|done]. unfold P. by rewrite bool_decide_eq_true. }
  destruct (filter P (rows df)) as [|first others] eqn:Hf; [by apply elem_of_nil in Hmatch|].
  exists first. split.
  - assert (Hfirst : first ∈ filter P (rows df)) by (rewrite Hf; apply list_elem_of_here).
    by apply list_elem_of_filter in Hfirst as [_ ?].
  - intros s. unfold process_prediction.
    rewrite (matching_rows_filter _ _ _ i) by done. rewrite result_bind_ok.
    fold P. by rewrite Hf.
Qed.

Lemma complete_run_counts df ids predictions s :
  columns df = columns create_template ->
  normalized_column df "Part ID" = Ok ids ->
  Forall (fun pred =>
            prediction_part_id pred ∈ ids
            /\ (forall key, key ∈ scoring_fields.*1 -> is_Some (pred !! key))
            /\ combined_fields_numeric pred) predictions ->
  tracked s ->
  exists s',
    for_each (process_prediction df create_process_map) predictions s = Ok s'
    /\ forall param st', param ∈ initialize_parameters -> s' !! param = Some st' ->
         exists st, s !! param = Some st
                    /\ total st' = (total st + Z.of_nat (length predictions))%Z.
Proof.
  intros Hcols Hids Hall. revert s.
  induction Hall as [|pred predictions (Hid & Hkeys & Hnum) _ IH]; intros s Hs.
  - exists s. split; [done|]. intros param st' _ Hst'. exists st'. split; [done|].
    simpl. lia.
  - destruct (process_prediction_matched df pred ids Hids Hid) as (row & _ & Hstep).
    destruct (complete_record_counts pred {| index := columns df; values := row |} s
                Hs Hnum Hkeys Hcols) as (s1 & H1 & Hs1 & Hcount).
    destruct (IH s1 Hs1) as (s' & Hrun & Hrest).
    exists s'. rewrite for_each_cons, Hstep, H1, result_bind_ok. split; [done|].
    intros param st' Hparam Hst'.
    destruct (Hrest param st' Hparam Hst') as (st1 & Hst1 & Ht1).
    destruct (Hcount param st1 Hparam Hst1) as (st & Hst & Ht).
    exists st. split; [done|]. rewrite Ht1, Ht. simpl length. lia.
Qed.

(** X14: the template has a column for every tracked parameter.  When the
    ground truth keeps the columns of the template and every prediction
    matches a row, has all the fields the parameters are scored by and holds
    numbers in its combined fields, the run returns and the total of each of
    the seventeen parameters is the number of predictions. *)
Theorem template_run_counts_every_parameter
    (predictions : list (gmap string pyval)) (df : DataFrame) (ids : list string) :
  columns df = columns create_template ->
  normalized_column df "Part ID" = Ok ids ->
  Forall (fun pred =>
            prediction_part_id pred ∈ ids
            /\ (forall key, key ∈ scoring_fields.*1 -> is_Some (pred !! key))
            /\ combined_fields_numeric pred) predictions ->
  columns create_template = "Part ID" :: initialize_parameters
  /\ exists stats,
       calculate_accuracy predictions df create_process_map = Ok stats
       /\ forall param, param ∈ initialize_parameters ->
            exists st, stats !! param = Some st
                       /\ total st = Z.of_nat (length predictions).
Proof.
  intros Hcols Hids Hall. split; [reflexivity|].
  destruct (complete_run_counts df ids predictions initial_stats Hcols Hids Hall
              tracked_initial_stats) as (stats & Hrun & Hcount).
  exists stats. split; [exact Hrun|]. intros param Hparam.
  assert (Hsome : is_Some (stats !! param)).
  { apply tracked_lookup; [|done]. unfold calculate_accuracy in Hrun.
    apply run_bumps in Hrun as (scores & ->); [|apply tracked_initial_stats].
    apply tracked_bump_all, tracked_initial_stats. }
  destruct Hsome as [st' Hst']. exists st'. split; [done|].
  destruct (Hcount param st' Hparam Hst') as (st & Hst & ->).
  rewrite initial_stats_lookup in Hst. case_bool_decide; [|done].
  injection Hst as <-. simpl. lia.
Qed.

Lemma template_run_counts_every_parameter_witness :
  exists stats,
    calculate_accuracy [sample_complete; sample_complete] create_template
      create_process_map = Ok stats
    /\ forall param, param ∈ initialize_parameters ->
         exists st, stats !! param = Some st /\ total st = 2%Z.
Proof.
  apply (template_run_counts_every_parameter [sample_complete; sample_complete]
           create_template
           ["example_bracket"; "example_shaft"; "example_weldment"]).
  - reflexivity.
  - vm_compute. reflexivity.
  - assert (Hone : prediction_part_id sample_complete
                   ∈ ["example_bracket"; "example_shaft"; "example_weldment"]
                   /\ (forall key, key ∈ scoring_fields.*1 ->
                                   is_Some (sample_complete !! key))
                   /\ combined_fields_numeric sample_complete).
    { split; [by_evaluation|]. split.
      - intros key Hkey.
        repeat (apply elem_of_cons in Hkey as [->|Hkey]; [by vm_compute; eexists|]).
        by apply elem_of_nil in Hkey.
      - intros key v Hkey.
        repeat (apply elem_of_cons in Hkey as [->|Hkey];
                [vm_compute; by (intros [= <-] || intros [=])|]).
        by apply elem_of_nil in Hkey. }
    repeat (apply Forall_cons; split; [exact Hone|]). apply Forall_nil_2.
Defined.

(** ** The fenced block of a reply *)

Lemma split_scan_nil sep piece : split_scan sep "" piece = [piece].
Proof. by simp split_scan. Qed.

Lemma split_scan_hit sep c s piece :
  starts_with sep (String c s) = true ->
  split_scan sep (String c s) piece
  = piece :: split_scan sep (drop_str (String.length sep - 1) s) "".
Proof. intros H. simp split_scan. rewrite H. by simp split_scan. Qed.

Lemma split_scan_miss sep c s piece :
  starts_with sep (String c s) = false ->
  split_scan sep (String c s) piece = split_scan sep s (piece +:+ String c "").
Proof. intros H. simp split_scan. rewrite H. by simp split_scan. Qed.

Lemma str_app_snoc piece c s : (piece +:+ String c "") +:+ s = piece +:+ String c s.
Proof. by rewrite str_app_assoc. Qed.

Lemma split_scan_head sep s piece :
  exists rest, split_scan sep s piece = (piece +:+ before sep s) :: rest.
Proof.
  revert piece. induction s as [|c s IH]; intros piece.
  - exists []. by rewrite split_scan_nil, str_app_nil_r.
  - simpl before. destruct (starts_with sep (String c s)) eqn:E.
    + rewrite split_scan_hit by done. rewrite str_app_nil_r. by eexists.
    + rewrite split_scan_miss by done. destruct (IH (piece +:+ String c "")) as [rest ->].
      exists rest. by rewrite str_app_snoc.
Qed.

Lemma py_split_first sep s : py_split sep s !! 0 = Some (before sep s).
Proof. unfold py_split. by destruct (split_scan_head sep s "") as [rest ->]. Qed.

Lemma before_length sep s : String.length (before sep s) ≤ String.length s.
Proof.
  induction s as [|c s IH]; [done|]. simpl before.
  destruct (starts_with sep (String c s)); simpl; lia.
Qed.

Lemma before_absent sep s : is_substring sep s = false -> before sep s = s.
Proof.
  induction s as [|c s IH]; [done|]. rewrite is_substring_cons.
  intros [Hst Hs]%orb_false_iff. simpl before. by rewrite Hst, IH.
Qed.

Lemma begins_in_cons sep c s :
  begins_in sep (String c s) = false ->
  starts_with sep (String c s +:+ sep) = false /\ begins_in sep s = false.
Proof. simpl begins_in. by intros ?%orb_false_iff. Qed.

(** No occurrence can begin inside [s], whatever follows the separator. *)
Lemma begins_in_starts sep c s t :
  begins_in sep (String c s) = false ->
  starts_with sep (String c s +:+ sep +:+ t) = false.
Proof.
  intros [Hst _]%begins_in_cons.
  destruct (starts_with sep (String c s +:+ sep +:+ t)) eqn:E; [|done].
  rewrite <- str_app_assoc in E. apply starts_with_app_inv in E; [congruence|].
  rewrite str_length_app. lia.
Qed.

Lemma begins_in_absent sep s :
  sep <> "" -> begins_in sep s = false -> is_substring sep s = false.
Proof.
  intros Hsep. induction s as [|c s IH]; intros Hb.
  - rewrite is_substring_nil. by destruct sep.
  - pose proof Hb as [Hst Hs]%begins_in_cons.
    rewrite is_substring_cons, IH by done. rewrite orb_false_r.
    destruct (starts_with sep (String c s)) eqn:E; [|done].
    apply (starts_with_app_l _ _ sep) in E. congruence.
Qed.

Lemma before_app sep pre rest :
  begins_in sep pre = false -> before sep (pre +:+ sep +:+ rest) = pre.
Proof.
  induction pre as [|c pre IH]; intros Hb.
  - rewrite str_app_nil_l. destruct (sep +:+ rest) as [|a t] eqn:E; [done|].
    simpl before. by rewrite <- E, starts_with_app.
  - pose proof (begins_in_starts sep c pre rest Hb) as Hst.
    apply begins_in_cons in Hb as [_ Hb]. rewrite str_app_cons in *.
    simpl before. by rewrite Hst, IH.
Qed.

Lemma split_scan_app sep pre rest piece :
  sep <> "" -> begins_in sep pre = false ->
  split_scan sep (pre +:+ sep +:+ rest) piece
  = (piece +:+ pre) :: split_scan sep rest "".
Proof.
  intros Hsep. revert piece. induction pre as [|c pre IH]; intros piece Hb.
  - rewrite str_app_nil_l, str_app_nil_r. destruct sep as [|a sep]; [done|].
    rewrite str_app_cons, split_scan_hit by (rewrite <- str_app_cons; apply starts_with_app).
    simpl String.length.
    replace (S (String.length sep) - 1) with (String.length sep) by lia.
    by rewrite drop_str_app.
  - pose proof (begins_in_starts sep c pre rest Hb) as Hst.
    apply begins_in_cons in Hb as [_ Hb]. rewrite str_app_cons in *.
    rewrite split_scan_miss, IH by done. by rewrite str_app_snoc.
Qed.

(** The first occurrence of a separator. *)
Lemma is_substring_first sep s :
  is_substring sep s = true ->
  exists pre rest, s = pre +:+ sep +:+ rest /\ begins_in sep pre = false.
Proof.
  induction s as [|c s IH].
  - rewrite is_substring_nil. destruct sep; [|done]. intros _. by exists "", "".
  - rewrite is_substring_cons. destruct (starts_with sep (String c s)) eqn:E.
    + intros _. exists "", (drop_str (String.length sep) (String c s)).
      split; [|done]. rewrite str_app_nil_l. by apply starts_with_split.
    + simpl orb. intros (pre & rest & -> & Hb)%IH. exists (String c pre), rest.
      split; [done|]. simpl begins_in. rewrite Hb, orb_false_r.
      destruct (starts_with sep (String c pre +:+ sep)) eqn:E'; [|done].
      apply (starts_with_app_l _ _ rest) in E'.
      rewrite str_app_assoc, str_app_cons in E'. congruence.
Qed.

Lemma py_split_second sep s :
  sep <> "" -> is_substring sep s = true ->
  exists pre rest,
    s = pre +:+ sep +:+ rest /\ begins_in sep pre = false
    /\ py_split sep s !! 1 = Some (before sep rest).
Proof.
  intros Hsep (pre & rest & -> & Hb)%is_substring_first. exists pre, rest.
  split; [done|]. split; [done|]. unfold py_split.
  rewrite split_scan_app by done.
  by destruct (split_scan_head sep rest "") as [pieces ->].
Qed.

Lemma py_split_second_app sep pre rest :
  sep <> "" -> begins_in sep pre = false ->
  py_split sep (pre +:+ sep +:+ rest) !! 1 = Some (before sep rest).
Proof.
  intros Hsep Hb. unfold py_split. rewrite split_scan_app by done.
  by destruct (split_scan_head sep rest "") as [pieces ->].
Qed.

Lemma starts_with_prefix m n s :
  starts_with (m +:+ n) s = true -> starts_with m s = true.
Proof.
  revert s. induction m as [|a m IH]; intros s H; [done|].
  destruct s as [|c s]; [done|]. rewrite str_app_cons in H. simpl in *.
  apply andb_true_iff in H as [-> H]. by apply IH.
Qed.

Lemma is_substring_prefix m n s :
  is_substring (m +:+ n) s = true -> is_substring m s = true.
Proof.
  induction s as [|c s IH].
  - rewrite !is_substring_nil. apply starts_with_prefix.
  - rewrite !is_substring_cons. intros [H|H]%orb_true_iff.
    + by rewrite (starts_with_prefix _ _ _ H).
    + by rewrite IH, orb_true_r.
Qed.

(** The fenced text of a reply, before it is stripped. *)
Lemma fenced_text sep t :
  sep <> "" -> is_substring sep t = true ->
  exists pre rest,
    t = pre +:+ sep +:+ rest /\ begins_in sep pre = false
    /\ (part ← py_split sep t !! 1; py_split "```" part !! 0)
       = Some (before "```" (before sep rest)).
Proof.
  intros Hsep (pre & rest & -> & Hb & Hsecond)%py_split_second; [|done].
  exists pre, rest. split; [done|]. split; [done|].
  rewrite Hsecond. simpl. apply py_split_first.
Qed.

(** X15: the text handed to the JSON parser is always there: taking the
    pieces of the split reply never fails.  It has no white space around
    it and is no longer than the reply; a reply without a fence is handed
    over as it is, stripped. *)
Theorem response_json_text_returns (result_text : string) :
  exists body,
    response_json_text result_text = Some body
    /\ strip body = body
    /\ String.length body ≤ String.length result_text
    /\ (is_substring "```" result_text = false -> body = strip result_text).
Proof.
  unfold response_json_text.
  destruct (is_substring "```json" result_text) eqn:Hjson.
  - destruct (fenced_text "```json" result_text) as (pre & rest & -> & _ & ->); [done..|].
    simpl. eexists. split; [done|]. split; [apply strip_idem|]. split.
    + pose proof (strip_length (before "```" (before "```json" rest))).
      pose proof (before_length "```" (before "```json" rest)).
      pose proof (before_length "```json" rest).
      rewrite !str_length_app. lia.
    + intros Hnone. apply (is_substring_prefix "```" "json") in Hjson. congruence.
  - destruct (is_substring "```" result_text) eqn:Hfence.
    + destruct (fenced_text "```" result_text) as (pre & rest & -> & _ & ->); [done..|].
      simpl. eexists. split; [done|]. split; [apply strip_idem|]. split; [|done].
      pose proof (strip_length (before "```" (before "```" rest))).
      pose proof (before_length "```" (before "```" rest)).
      pose proof (before_length "```" rest).
      rewrite !str_length_app. lia.
    + simpl. eexists. split; [done|]. split; [apply strip_idem|].
      split; [apply strip_length|done].
Qed.

Lemma before_cons sep c s :
  before sep (String c s)
  = if starts_with sep (String c s) then "" else String c (before sep s).
Proof. reflexivity. Qed.

Lemma starts_with_same c m s : starts_with (String c m) (String c s) = starts_with m s.
Proof. simpl. by rewrite Ascii.eqb_refl. Qed.

Lemma starts_with_other c m s :
  starts_with (String c "") s = false -> starts_with (String c m) s = false.
Proof.
  destruct s as [|a s]; [done|]. simpl. rewrite andb_true_r. by intros ->.
Qed.

Lemma before_json_fence body post :
  begins_in "```" body = false ->
  starts_with "`" post = false ->
  before "```json" (body +:+ "```" +:+ post) = body
  \/ exists h, before "```json" (body +:+ "```" +:+ post) = body +:+ "```" +:+ h.
Proof.
  intros Hb Hpost. induction body as [|c body IH].
  - rewrite !str_app_nil_l.
    change ("```" +:+ post) with (String "`" (String "`" (String "`" post))).
    rewrite before_cons, !starts_with_same.
    destruct (starts_with "json" post) eqn:E; [by left|right].
    exists (before "```json" post).
    rewrite before_cons, !starts_with_same, (starts_with_other _ _ _ Hpost).
    rewrite before_cons, !starts_with_same, (starts_with_other _ _ _ Hpost).
    reflexivity.
  - pose proof (begins_in_starts "```" c body post Hb) as Hst.
    apply begins_in_cons in Hb as [_ Hb].
    change (String c body +:+ "```" +:+ post)
      with (String c (body +:+ "```" +:+ post)) in *.
    assert (Hmiss : starts_with "```json" (String c (body +:+ "```" +:+ post)) = false).
    { destruct (starts_with "```json" _) eqn:E; [|done].
      apply (starts_with_prefix "```" "json") in E. congruence. }
    rewrite before_cons, Hmiss.
    destruct (IH Hb) as [->|[h ->]]; [by left|right; by exists h].
Qed.

(** X16: a reply that carries its JSON in a block fenced with three
    backticks and the word json hands over what stands between the opening
    fence and the closing one, stripped, whatever comes before the block
    and after it -- provided no fence begins in the text before the block or
    in the block, and no backtick follows the closing fence. *)
Theorem response_json_text_json_fence (pre body post : string) :
  begins_in "```json" pre = false ->
  begins_in "```" body = false ->
  starts_with "`" post = false ->
  response_json_text (pre +:+ "```json" +:+ body +:+ "```" +:+ post)
  = Some (strip body).
Proof.
  intros Hpre Hbody Hpost. unfold response_json_text.
  rewrite is_substring_app, py_split_second_app by done.
  simpl. rewrite py_split_first. simpl. do 2 f_equal.
  destruct (before_json_fence body post Hbody Hpost) as [->|[h ->]].
  - apply before_absent. by apply begins_in_absent.
  - by apply before_app.
Qed.

Lemma response_json_text_json_fence_witness :
  response_json_text
    ("Here is the analysis: " +:+ "```json" +:+ " {'type': 'Shaft'} " +:+ "```"
     +:+ " Let me know.")
  = Some (strip " {'type': 'Shaft'} ").
Proof.
  apply (response_json_text_json_fence "Here is the analysis: "
           " {'type': 'Shaft'} " " Let me know."); vm_compute; reflexivity.
Defined.

(** X17: a reply that has no fence with the word json anywhere and carries
    its JSON in a block fenced with three backticks alone hands over what
    stands between the first fence and the second, stripped -- provided no
    fence begins in the text before the block or in the block. *)
Theorem response_json_text_plain_fence (pre body post : string) :
  is_substring "```json" (pre +:+ "```" +:+ body +:+ "```" +:+ post) = false ->
  begins_in "```" pre = false ->
  begins_in "```" body = false ->
  response_json_text (pre +:+ "```" +:+ body +:+ "```" +:+ post) = Some (strip body).
Proof.
  intros Hjson Hpre Hbody. unfold response_json_text.
  rewrite Hjson, is_substring_app, py_split_second_app by done.
  simpl. rewrite py_split_first. simpl. do 2 f_equal.
  rewrite (before_app "```" body post) by done.
  apply before_absent. by apply begins_in_absent.
Qed.

Lemma response_json_text_plain_fence_witness :
  response_json_text
    ("" +:+ "```" +:+ " {'type': 'Shaft'} " +:+ "```" +:+ " Let me know.")
  = Some (strip " {'type': 'Shaft'} ").
Proof.
  apply (response_json_text_plain_fence "" " {'type': 'Shaft'} " " Let me know.");
    vm_compute; reflexivity.
Defined.
